(** * The file traversal and text classification substrate of the
      LLM Context Toolbelt ([llm_context/toolbelt.py])

    A shallow embedding of the core utilities every command builds on:
    [is_binary_bytes], [read_text_safe], [iter_files], [report_path] and
    [write_text], together with the part of the Python runtime they call
    ([os.walk], [os.path], [bytes.decode], [open]).

    Conventions of the model:
    - a [bytes] value is a [list byte];
    - a decoded [str] (file content) is the list of its Unicode code points;
    - a file or directory name is a [string] of 8-bit characters; case
      mapping on names is the ASCII one, which is what [str.lower()] does
      on 7-bit characters;
    - a path is the list of its components (POSIX, already split at the
      separator): [os.path.join root name] appends one component;
    - the filesystem is a finite tree of regular files and directories
      (symbolic links and special files are not modelled; [os.walk] does
      not follow links); a file carries one permission bit, whether the
      process may open it, and a directory one, whether the process may
      list it.  What is stated about the content or the size of a path
      takes the regular file it denotes as a hypothesis;
    - [iter_files] is the list of entries the generator yields;
      [iter_files_call] is the same consumed, with the exceptions the
      function lets through. *)

From Stdlib Require Import List String Ascii Bool Arith ZArith NArith QArith.
From Stdlib Require Import Lia Permutation DecimalString ZifyNat Sorted.
From Stdlib.Strings Require Import Byte.
From Stdlib Require PrimFloat Uint63.
Import ListNotations.

Local Open Scope string_scope.
Local Open Scope list_scope.

(** ** Exceptions *)

(** The exceptions the modelled calls can raise.  All of them are
    subclasses of Python's [Exception]. *)
Inductive errno : Type :=
| ENOENT | EACCES | EISDIR | ENOTDIR | EEXIST | EIO | ENOMEM.

Inductive exn : Type :=
| OSError (e : errno)
| MemoryError
| ValueError
| UnicodeDecodeError
| UnicodeEncodeError.

Inductive result (A : Type) : Type :=
| Ok (a : A)
| Raise (e : exn).
Arguments Ok {A} a.
Arguments Raise {A} e.

Definition bind {A B : Type} (m : result A) (k : A -> result B) : result B :=
  match m with
  | Ok a => k a
  | Raise e => Raise e
  end.

(** [try: m except Exception: h] *)
Definition try_except {A : Type} (m : result A) (h : exn -> result A) : result A :=
  match m with
  | Ok a => Ok a
  | Raise e => h e
  end.

Declare Scope result_scope.
Delimit Scope result_scope with result.
Notation "x <- m ;; k" := (bind m (fun x => k))
  (at level 61, m at next level, right associativity) : result_scope.
Local Open Scope result_scope.

(** ** Binary detection *)

Module Classifier.

Definition byte_val (b : byte) : N := Byte.to_N b.

(** [b"\0" in chunk] *)
Definition has_null (chunk : list byte) : bool :=
  existsb (Byte.eqb x00) chunk.

(** [bytearray({7, 8, 9, 10, 12, 13, 27} | set(range(0x20, 0x100)))] *)
Definition text_characters : list N :=
  [7; 8; 9; 10; 12; 13; 27]%N ++ map N.of_nat (seq 0x20 (0x100 - 0x20)).

Definition in_text_characters (b : byte) : bool :=
  existsb (N.eqb (byte_val b)) text_characters.

(** [chunk.translate(None, text_characters)]: delete every byte of
    [text_characters]. *)
Definition translate_delete (chunk : list byte) : list byte :=
  filter (fun b => negb (in_text_characters b)) chunk.

Definition Qgtb (x y : Q) : bool := negb (Qle_bool x y).

(** [is_binary_bytes], lines 76-82.  The quotient
    [float(len(nontext)) / max(1, len(chunk))] is taken in exact rational
    arithmetic; [is_binary_bytes_f64] below is the same function on IEEE
    binary64 numbers. *)
Definition is_binary_bytes (chunk : list byte) : bool :=
  if has_null chunk then true
  else
    let nontext := translate_delete chunk in
    Qgtb (inject_Z (Z.of_nat (List.length nontext))
          / inject_Z (Z.of_nat (Nat.max 1 (List.length chunk))))
         (30 # 100).

(** The same function with Python's [float] as IEEE binary64. *)
Module F64.
Import PrimFloat.

(** An [int] as a [float] (exact below 2^53). *)
Definition float_of_int (n : Z) : float := of_uint63 (Uint63.of_Z n).

(** [float(a) / b > 0.30] *)
#[warnings="-inexact-float"]
Definition quotient_exceeds (a b : Z) : bool :=
  ltb 0.30%float (div (float_of_int a) (float_of_int b)).

(** [float(nontext) / max(1, len) > 0.30] for two lengths. *)
Definition ratio_exceeds (nontext len : nat) : bool :=
  quotient_exceeds (Z.of_nat nontext) (Z.of_nat (Nat.max 1 len)).

(** The integers [lo], [lo + 1], ..., [n] of them. *)
Fixpoint zrange (lo : Z) (n : nat) : list Z :=
  match n with
  | O => []
  | S n' => lo :: zrange (lo + 1) n'
  end.

End F64.

Definition is_binary_bytes_f64 (chunk : list byte) : bool :=
  if has_null chunk then true
  else F64.ratio_exceeds (List.length (translate_delete chunk)) (List.length chunk).

(** What the specification calls the allowed set:
    {7,8,9,10,12,13,27} together with the interval [0x20,0xFF]. *)
Definition allowed_byte (b : byte) : Prop :=
  In (byte_val b) [7; 8; 9; 10; 12; 13; 27]%N
  \/ (0x20 <= byte_val b <= 0xFF)%N.

Definition allowed_byteb (b : byte) : bool :=
  existsb (N.eqb (byte_val b)) [7; 8; 9; 10; 12; 13; 27]%N
  || ((0x20 <=? byte_val b)%N && (byte_val b <=? 0xFF)%N).

(** The fraction of the bytes of a sample lying outside the allowed set
    (0 for the empty sample). *)
Definition fraction_outside (sample : list byte) : Q :=
  inject_Z (Z.of_nat (List.length (filter (fun b => negb (allowed_byteb b)) sample)))
  / inject_Z (Z.of_nat (List.length sample)).

End Classifier.

(** ** UTF-8 ([bytes.decode] and [str.encode] of the runtime) *)

Module Utf8.

(** A [str] is the sequence of its code points. *)
Definition str : Type := list N.

Inductive error_handler : Type := Strict | Replace.

Definition REPLACEMENT_CHARACTER : N := 0xFFFD.

Definition val (b : byte) : N := Byte.to_N b.

Definition between (lo x hi : N) : bool := ((lo <=? x) && (x <=? hi))%N.

Definition is_continuation (b : byte) : bool := between 0x80 (val b) 0xBF.

(** Range allowed for the second byte after the lead byte [b0] of a
    three-byte form (no overlong forms, no surrogates). *)
Definition second_of_three (b0 b1 : byte) : bool :=
  if (val b0 =? 0xE0)%N then between 0xA0 (val b1) 0xBF
  else if (val b0 =? 0xED)%N then between 0x80 (val b1) 0x9F
  else is_continuation b1.

(** Range allowed for the second byte of a four-byte form (no overlong
    forms, nothing above U+10FFFF). *)
Definition second_of_four (b0 b1 : byte) : bool :=
  if (val b0 =? 0xF0)%N then between 0x90 (val b1) 0xBF
  else if (val b0 =? 0xF4)%N then between 0x80 (val b1) 0x8F
  else is_continuation b1.

Definition low6 (b : byte) : N := N.land (val b) 0x3F.

Definition cp2 (b0 b1 : byte) : N :=
  N.lor (N.shiftl (N.land (val b0) 0x1F) 6) (low6 b1).

Definition cp3 (b0 b1 b2 : byte) : N :=
  N.lor (N.shiftl (N.land (val b0) 0x0F) 12)
        (N.lor (N.shiftl (low6 b1) 6) (low6 b2)).

Definition cp4 (b0 b1 b2 b3 : byte) : N :=
  N.lor (N.shiftl (N.land (val b0) 0x07) 18)
        (N.lor (N.shiftl (low6 b1) 12)
               (N.lor (N.shiftl (low6 b2) 6) (low6 b3))).

Definition emit (c : N) (rest : result str) : result str :=
  s <- rest ;; Ok (c :: s).

(** What the decoder does with an ill-formed subsequence: raise, or put
    one U+FFFD in its place and go on with what follows it. *)
Definition on_error (errors : error_handler) (rest : result str) : result str :=
  match errors with
  | Strict => Raise UnicodeDecodeError
  | Replace => emit REPLACEMENT_CHARACTER rest
  end.

(** [bytes.decode("utf-8", errors)]: an ill-formed subsequence is the
    longest prefix of a well-formed sequence, or one byte. *)
Fixpoint decode (errors : error_handler) (bs : list byte) : result str :=
  match bs with
  | [] => Ok []
  | b0 :: r0 =>
    if (val b0 <? 0x80)%N then emit (val b0) (decode errors r0)
    else if between 0xC2 (val b0) 0xDF then
      match r0 with
      | [] => on_error errors (Ok [])
      | b1 :: r1 =>
        if is_continuation b1 then emit (cp2 b0 b1) (decode errors r1)
        else on_error errors (decode errors r0)
      end
    else if between 0xE0 (val b0) 0xEF then
      match r0 with
      | [] => on_error errors (Ok [])
      | b1 :: r1 =>
        if second_of_three b0 b1 then
          match r1 with
          | [] => on_error errors (Ok [])
          | b2 :: r2 =>
            if is_continuation b2 then emit (cp3 b0 b1 b2) (decode errors r2)
            else on_error errors (decode errors r1)
          end
        else on_error errors (decode errors r0)
      end
    else if between 0xF0 (val b0) 0xF4 then
      match r0 with
      | [] => on_error errors (Ok [])
      | b1 :: r1 =>
        if second_of_four b0 b1 then
          match r1 with
          | [] => on_error errors (Ok [])
          | b2 :: r2 =>
            if is_continuation b2 then
              match r2 with
              | [] => on_error errors (Ok [])
              | b3 :: r3 =>
                if is_continuation b3
                then emit (cp4 b0 b1 b2 b3) (decode errors r3)
                else on_error errors (decode errors r2)
              end
            else on_error errors (decode errors r1)
          end
        else on_error errors (decode errors r0)
      end
    else on_error errors (decode errors r0)
  end.

Definition byte_of (n : N) : byte :=
  match Byte.of_N n with
  | Some b => b
  | None => x00
  end.

Definition cont_byte (c : N) (shift : N) : byte :=
  byte_of (N.lor 0x80 (N.land (N.shiftr c shift) 0x3F)).

(** The UTF-8 form of one code point; surrogates and numbers above
    U+10FFFF have none. *)
Definition encode_code_point (c : N) : result (list byte) :=
  if (c <? 0x80)%N then Ok [byte_of c]
  else if (c <? 0x800)%N then
    Ok [byte_of (N.lor 0xC0 (N.shiftr c 6)); cont_byte c 0]
  else if between 0xD800 c 0xDFFF then Raise UnicodeEncodeError
  else if (c <? 0x10000)%N then
    Ok [byte_of (N.lor 0xE0 (N.shiftr c 12)); cont_byte c 6; cont_byte c 0]
  else if (c <? 0x110000)%N then
    Ok [byte_of (N.lor 0xF0 (N.shiftr c 18)); cont_byte c 12; cont_byte c 6;
        cont_byte c 0]
  else Raise UnicodeEncodeError.

(** [str.encode("utf-8")] *)
Fixpoint encode (s : str) : result (list byte) :=
  match s with
  | [] => Ok []
  | c :: s' =>
    bs <- encode_code_point c ;;
    rest <- encode s' ;;
    Ok (bs ++ rest)
  end.

(** A check on one code point: the form [encode_code_point] gives it is
    one the decoder takes for that code point, whatever follows. *)
Definition well_formed (c : N) : bool :=
  match encode_code_point c with
  | Raise _ => true
  | Ok [b0] => (val b0 <? 0x80)%N && (val b0 =? c)%N
  | Ok [b0; b1] =>
    negb (val b0 <? 0x80)%N && between 0xC2 (val b0) 0xDF
    && is_continuation b1 && (cp2 b0 b1 =? c)%N
  | Ok [b0; b1; b2] =>
    negb (val b0 <? 0x80)%N && negb (between 0xC2 (val b0) 0xDF)
    && between 0xE0 (val b0) 0xEF && second_of_three b0 b1
    && is_continuation b2 && (cp3 b0 b1 b2 =? c)%N
  | Ok [b0; b1; b2; b3] =>
    negb (val b0 <? 0x80)%N && negb (between 0xC2 (val b0) 0xDF)
    && negb (between 0xE0 (val b0) 0xEF) && between 0xF0 (val b0) 0xF4
    && second_of_four b0 b1 && is_continuation b2 && is_continuation b3
    && (cp4 b0 b1 b2 b3 =? c)%N
  | Ok _ => false
  end.

(** [bs] is an initial part of the UTF-8 form of some code point (the
    whole form included). *)
Definition starts_form (bs : list byte) : Prop :=
  exists c enc suf, encode_code_point c = Ok enc /\ enc = bs ++ suf.

(** The code points of a literal of 7-bit characters. *)
Definition of_string (s : string) : str :=
  map N_of_ascii (list_ascii_of_string s).

End Utf8.

(** ** Paths ([os.path], POSIX flavour) *)

Module Path.

(** An absolute path in normal form: its components from the root. *)
Definition path : Type := list string.

(** A path as a caller writes it. *)
Record pathname : Type := mk_pathname {
  absolute : bool;
  components : list string
}.

Definition curdir : string := ".".
Definition pardir : string := "..".

(** [os.path.join(root, name)] for a single component [name]. *)
Definition join (root : path) (name : string) : path := root ++ [name].

(** The component loop of [posixpath.normpath] for an absolute path;
    [acc] holds the components kept so far, last one first. *)
Fixpoint normpath_loop (acc : list string) (comps : list string) : list string :=
  match comps with
  | [] => rev acc
  | c :: cs =>
    if String.eqb c EmptyString || String.eqb c curdir then normpath_loop acc cs
    else if String.eqb c pardir then normpath_loop (tl acc) cs
    else normpath_loop (c :: acc) cs
  end.

(** [os.path.abspath(p)] with the current directory [cwd]. *)
Definition abspath (cwd : path) (p : pathname) : path :=
  normpath_loop [] (if absolute p then components p else cwd ++ components p).

Fixpoint commonprefix (a b : list string) : list string :=
  match a, b with
  | x :: a', y :: b' => if String.eqb x y then x :: commonprefix a' b' else []
  | _, _ => []
  end.

(** [os.path.relpath(p, start)] on absolute paths in normal form. *)
Definition relpath (p start : path) : result (list string) :=
  let i := List.length (commonprefix start p) in
  let rel_list := repeat pardir (List.length start - i) ++ skipn i p in
  match rel_list with
  | [] => Ok [curdir]
  | _ => Ok rel_list
  end.

(** [safe_relpath], lines 69-73. *)
Definition safe_relpath (p base : path) : list string :=
  match relpath p base with
  | Ok r => r
  | Raise _ => p
  end.

(** [str.rfind(c)]: index of the last occurrence, or -1. *)
Fixpoint rfind_from (c : ascii) (s : string) (i : Z) : Z :=
  match s with
  | EmptyString => (-1)%Z
  | String a s' =>
    let r := rfind_from c s' (i + 1)%Z in
    if (0 <=? r)%Z then r else if Ascii.eqb a c then i else (-1)%Z
  end.

Definition rfind (c : ascii) (s : string) : Z := rfind_from c s 0%Z.

Definition sep : ascii := "/"%char.
Definition extsep : ascii := "."%char.

(** [genericpath._splitext]: the extension starts at the last dot of the
    last component, unless that component has only dots before it. *)
Definition splitext (p : string) : string * string :=
  let sepIndex := rfind sep p in
  let dotIndex := rfind extsep p in
  if (sepIndex <? dotIndex)%Z then
    let start := Z.to_nat (sepIndex + 1) in
    let stem := substring start (Z.to_nat dotIndex - start) p in
    if existsb (fun ch => negb (Ascii.eqb ch extsep)) (list_ascii_of_string stem)
    then (substring 0 (Z.to_nat dotIndex) p,
          substring (Z.to_nat dotIndex) (String.length p - Z.to_nat dotIndex) p)
    else (p, EmptyString)
  else (p, EmptyString).

Definition lower_ascii (a : ascii) : ascii :=
  let n := nat_of_ascii a in
  if (65 <=? n)%nat && (n <=? 90)%nat then ascii_of_nat (n + 32) else a.

(** [str.lower()] on a string of 7-bit characters: the letters A-Z
    change, nothing else does.  Beyond them [str.lower()] follows the
    Unicode tables, which are not modelled: what is stated about a
    lower-cased extension is stated for extensions of 7-bit characters. *)
Fixpoint lower (s : string) : string :=
  match s with
  | EmptyString => EmptyString
  | String a s' => String (lower_ascii a) (lower s')
  end.

(** [s.startswith(p)] *)
Definition startswith (p s : string) : bool := String.prefix p s.

End Path.

(** ** The filesystem *)

Module FS.
Import Path.

#[warnings="-register-all"]
Inductive node : Type :=
| File (access : bool) (data : list byte)
| Dir (listable : bool) (entries : list (string * node)).

Definition is_dir (n : node) : bool :=
  match n with
  | Dir _ _ => true
  | File _ _ => false
  end.

(** The entry a name denotes in a directory. *)
Fixpoint lookup (name : string) (es : list (string * node)) : option node :=
  match es with
  | [] => None
  | (n, c) :: es' => if String.eqb n name then Some c else lookup name es'
  end.

(** The node an absolute path denotes, or the error of the system call
    that looks it up. *)
Fixpoint stat (fs : node) (p : path) : result node :=
  match p with
  | [] => Ok fs
  | c :: p' =>
    match fs with
    | File _ _ => Raise (OSError ENOTDIR)
    | Dir _ es =>
      match lookup c es with
      | Some n => stat n p'
      | None => Raise (OSError ENOENT)
      end
    end
  end.

(** Size reported for a directory (whatever the filesystem says). *)
Definition DIR_SIZE : Z := 4096.

(** [os.path.getsize(p)] *)
Definition getsize (fs : node) (p : path) : result Z :=
  n <- stat fs p ;;
  match n with
  | File _ data => Ok (Z.of_nat (List.length data))
  | Dir _ _ => Ok DIR_SIZE
  end.

(** [with open(p, "rb") as f: data = f.read()] *)
Definition read_bytes (fs : node) (p : path) : result (list byte) :=
  n <- stat fs p ;;
  match n with
  | File true data => Ok data
  | File false _ => Raise (OSError EACCES)
  | Dir _ _ => Raise (OSError EISDIR)
  end.

(** [os.getcwd()]: the working directory [cwd], as long as it is a
    directory of the filesystem; once it has been removed the call raises
    FileNotFoundError. *)
Definition getcwd (fs : node) (cwd : path) : result path :=
  match stat fs cwd with
  | Ok (Dir _ _) => Ok cwd
  | Ok (File _ _) | Raise _ => Raise (OSError ENOENT)
  end.

(** Replace the entry a name denotes. *)
Fixpoint update (name : string) (c : node) (es : list (string * node))
  : list (string * node) :=
  match es with
  | [] => []
  | (n, old) :: es' =>
    if String.eqb n name then (n, c) :: es' else (n, old) :: update name c es'
  end.

(** [os.makedirs(p, exist_ok=True)] *)
Fixpoint makedirs (fs : node) (p : path) : result node :=
  match p with
  | [] =>
    match fs with
    | Dir _ _ => Ok fs
    | File _ _ => Raise (OSError EEXIST)
    end
  | c :: p' =>
    match fs with
    | File _ _ => Raise (OSError ENOTDIR)
    | Dir l es =>
      match lookup c es with
      | Some n => n' <- makedirs n p' ;; Ok (Dir l (update c n' es))
      | None => n' <- makedirs (Dir true []) p' ;; Ok (Dir l (es ++ [(c, n')]))
      end
    end
  end.

(** Replace the content of the file at [p], creating the file when only
    its last component is missing. *)
Fixpoint put (fs : node) (p : path) (data : list byte) : result node :=
  match p with
  | [] =>
    match fs with
    | File true _ => Ok (File true data)
    | File false _ => Raise (OSError EACCES)
    | Dir _ _ => Raise (OSError EISDIR)
    end
  | c :: p' =>
    match fs with
    | File _ _ => Raise (OSError ENOTDIR)
    | Dir l es =>
      match lookup c es with
      | Some n => n' <- put n p' data ;; Ok (Dir l (update c n' es))
      | None =>
        match p' with
        | [] => Ok (Dir l (es ++ [(c, File true data)]))
        | _ :: _ => Raise (OSError ENOENT)
        end
      end
    end
  end.

(** Names are unique within every directory. *)
Fixpoint wf (n : node) : Prop :=
  match n with
  | File _ _ => True
  | Dir _ es =>
    NoDup (map fst es) /\
    (fix all (l : list (string * node)) : Prop :=
       match l with
       | [] => True
       | (_, c) :: l' => wf c /\ all l'
       end) es
  end.

End FS.

(** ** Safe reading *)

Module Reader.
Import Path Classifier.

(** The two system calls [read_text_safe] makes; each may raise. *)
Record os_calls : Type := mk_os {
  os_getsize : path -> result Z;
  os_read : path -> result (list byte)
}.

(** The calls as a filesystem tree answers them. *)
Definition os_of (fs : FS.node) : os_calls :=
  mk_os (FS.getsize fs) (FS.read_bytes fs).

Definition DEFAULT_MAX_BYTES : Z := 2000000.

(** The body of the [try] statement of [read_text_safe], lines 87-94. *)
Definition read_text_body (os : os_calls) (p : path) (max_bytes : Z)
  : result (option Utf8.str) :=
  size <- os_getsize os p ;;
  if (max_bytes <? size)%Z then Ok None
  else
    data <- os_read os p ;;
    if is_binary_bytes (firstn 1024 data) then Ok None
    else
      text <- Utf8.decode Utf8.Replace data ;;
      Ok (Some text).

(** [read_text_safe], lines 85-96. *)
Definition read_text_safe (os : os_calls) (p : path) (max_bytes : Z)
  : result (option Utf8.str) :=
  try_except (read_text_body os p max_bytes) (fun _ => Ok None).

(** [read_text_safe] with the 64-bit float classifier. *)
Definition read_text_safe_f64 (os : os_calls) (p : path) (max_bytes : Z)
  : result (option Utf8.str) :=
  try_except
    (size <- os_getsize os p ;;
     if (max_bytes <? size)%Z then Ok None
     else
       data <- os_read os p ;;
       if is_binary_bytes_f64 (firstn 1024 data) then Ok None
       else
         text <- Utf8.decode Utf8.Replace data ;;
         Ok (Some text))
    (fun _ => Ok None).

End Reader.

(** ** Traversal *)

Module Walker.
Import Path FS.

Definition DEFAULT_EXCLUDE_DIRS : list string :=
  [".git"; "node_modules"; ".venv"; "venv"; "dist"; "build"; "__pycache__";
   ".idea"; ".vscode"; ".pytest_cache"; ".mypy_cache"].

(** Membership in a collection of strings ([x in c]). *)
Definition mem (x : string) (c : list string) : bool :=
  existsb (String.eqb x) c.

(** The names [os.walk] puts in [dirs] and in [files] for a listing. *)
Definition dir_names (es : list (string * node)) : list string :=
  map fst (filter (fun e => is_dir (snd e)) es).

Definition file_names (es : list (string * node)) : list string :=
  map fst (filter (fun e => negb (is_dir (snd e))) es).

Section Walk.
Context {A : Type}.

(** The body of a [for root, dirs, files in os.walk(top)] loop: given
    the triple it returns the list it leaves in [dirs] (the loop may
    assign to [dirs[:]]) and what it yields. *)
Variable body : path -> list string -> list string -> list string * list A.

(** [os.walk(top)], top-down, errors of [scandir] ignored, run on the
    node [n] that [top] denotes.  After the body has run on a directory
    the walk descends into the names left in [dirs], in that order. *)
Fixpoint walk (top : path) (n : node) : list A :=
  match n with
  | File _ _ => []       (* [scandir] raises NotADirectoryError: ignored *)
  | Dir false _ => []    (* [scandir] raises PermissionError: ignored *)
  | Dir true es =>
    let dirs := dir_names es in
    let nondirs := file_names es in
    let '(dirs', out) := body top dirs nondirs in
    out ++
    flat_map
      (fun name =>
         (fix descend (l : list (string * node)) : list A :=
            match l with
            | [] => []
            | (n', c) :: l' =>
              if String.eqb n' name then walk (join top name) c
              else descend l'
            end) es)
      dirs'
  end.

Definition os_walk (fs : node) (top : path) : list A :=
  match stat fs top with
  | Ok n => walk top n
  | Raise _ => []
  end.
End Walk.

(** The condition of the comprehension of line 103. *)
Definition should_descend (d : string) : bool :=
  negb (mem d DEFAULT_EXCLUDE_DIRS) && negb (startswith "." d).

(** Lines 107-110: does the file pass the extension filter? *)
Definition passes (include_exts : option (list string)) (name : string) : bool :=
  match include_exts with
  | Some exts =>
    let ext := lower (snd (splitext name)) in
    if negb (mem ext exts) then false else true
  | None => true
  end.

(** The loop body of [iter_files], lines 102-111. *)
Definition iter_files_body (base : path) (include_exts : option (list string))
    (root : path) (dirs files : list string)
  : list string * list (path * list string) :=
  (filter should_descend dirs,
   flat_map
     (fun name =>
        let full := join root name in
        let rel := safe_relpath full base in
        if passes include_exts name then [(full, rel)] else [])
     files).

(** [iter_files], lines 99-111: the entries it yields, in order. *)
Definition iter_files (fs : node) (cwd : path) (base : pathname)
    (include_exts : option (list string)) : list (path * list string) :=
  let base := abspath cwd base in
  os_walk (iter_files_body base include_exts) fs base.

(** [os.path.abspath(p)] with what it can raise: it calls [os.getcwd()]
    for a relative path, and only for one. *)
Definition abspath_call (fs : node) (cwd : path) (p : pathname) : result path :=
  if absolute p then Ok (abspath cwd p)
  else
    _ <- getcwd fs cwd ;;
    Ok (abspath cwd p).

(** Does the string hold a NUL character?  No system call takes such a
    path: the call raises ValueError before it looks anything up. *)
Definition has_nul (s : string) : bool :=
  existsb (Ascii.eqb Ascii.zero) (list_ascii_of_string s).

(** Consuming [iter_files(base, include_exts)], lines 99-111, with the
    exceptions it lets through: line 100 has no [try], and [os.walk]
    ignores the [OSError]s of [scandir] only, so the ValueError of
    [scandir] on its first directory gets out.  (The names a directory
    lists hold no NUL, so the directories below raise nothing.)  Where
    nothing is raised the entries are those of [iter_files]. *)
Definition iter_files_call (fs : node) (cwd : path) (base : pathname)
    (include_exts : option (list string))
  : result (list (path * list string)) :=
  base <- abspath_call fs cwd base ;;
  if existsb has_nul base then Raise ValueError
  else Ok (os_walk (iter_files_body base include_exts) fs base).

(** The directories whose listing the loop of [iter_files] receives: the
    same loop, recording [root] instead of the files. *)
Definition visited_dirs (fs : node) (cwd : path) (base : pathname)
  : list path :=
  let base := abspath cwd base in
  os_walk (fun root dirs _ => (filter should_descend dirs, [root])) fs base.

(** [reaches keep n p es]: from the directory [n] the names [p] lead,
    through listable directories whose names all satisfy [keep], to a
    listable directory with entries [es]. *)
Inductive reaches (keep : string -> bool)
  : node -> list string -> list (string * node) -> Prop :=
| reaches_here : forall es, reaches keep (Dir true es) [] es
| reaches_down : forall es name c p es',
    keep name = true ->
    lookup name es = Some c ->
    reaches keep c p es' ->
    reaches keep (Dir true es) (name :: p) es'.

(** A name of the exclusion set, or one that starts with a dot. *)
Definition excluded_name (d : string) : Prop :=
  In d DEFAULT_EXCLUDE_DIRS \/ startswith "." d = true.

(** What a path denotes, without the content of a directory. *)
Definition shallow (n : node) : node :=
  match n with
  | File a d => File a d
  | Dir l _ => Dir l []
  end.

Definition look (fs : node) (p : path) : option node :=
  match stat fs p with
  | Ok n => Some (shallow n)
  | Raise _ => None
  end.

(** Two trees of the same filesystem: every path denotes the same thing
    in both; the order in which a directory lists its entries is free. *)
Definition same_filesystem (fs1 fs2 : node) : Prop :=
  forall p, look fs1 p = look fs2 p.

End Walker.

(** ** Reports *)

Module Report.
Import Path FS.

(** What [datetime.now()] returns. *)
Record datetime : Type := mk_datetime {
  year : nat; month : nat; day : nat;
  hour : nat; minute : nat; second : nat
}.

Definition digit (n : nat) : ascii := ascii_of_nat (48 + n mod 10).

(** [%m], [%d], [%H], [%M], [%S]: two digits. *)
Definition two_digits (n : nat) : string :=
  String (digit (n / 10)) (String (digit n) EmptyString).

(** [%Y]: four digits. *)
Definition four_digits (n : nat) : string :=
  String (digit (n / 1000)) (String (digit (n / 100)) (two_digits n)).

(** [now_stamp], lines 48-49: [strftime("%Y-%m-%d_%H%M%S")]. *)
Definition now_stamp (now : datetime) : string :=
  (four_digits (year now) ++ "-" ++ two_digits (month now) ++ "-"
   ++ two_digits (day now) ++ "_" ++ two_digits (hour now)
   ++ two_digits (minute now) ++ two_digits (second now))%string.

(** [ensure_out_dir], lines 52-55; [cwd] is what [os.getcwd()] returns.
    The result is the directory and the filesystem the call leaves. *)
Definition ensure_out_dir (fs : node) (cwd : path) : result (path * node) :=
  let out_dir := join cwd "context_out" in
  fs' <- makedirs fs out_dir ;;
  Ok (out_dir, fs').

(** [report_path], lines 58-61. *)
Definition report_path (fs : node) (cwd : path) (now : datetime)
    (name ext : string) : result (path * node) :=
  r <- ensure_out_dir fs cwd ;;
  let '(out_dir, fs') := r in
  let fname := (name ++ "_" ++ now_stamp now ++ "." ++ ext)%string in
  Ok (join out_dir fname, fs').

(** [write_text], lines 64-66: [open(path, "w")] empties or creates the
    file, [f.write] stores the UTF-8 form of [content]; with
    [newline="\n"] no character is translated on the way. *)
Definition write_text (fs : node) (p : path) (content : Utf8.str) : result node :=
  fs1 <- put fs p [] ;;
  data <- Utf8.encode content ;;
  put fs1 p data.

(** Reading a path back: [open(p, "rb").read().decode("utf-8")]. *)
Definition read_back (fs : node) (p : path) : result Utf8.str :=
  data <- read_bytes fs p ;;
  Utf8.decode Utf8.Strict data.

End Report.

(** ** Sample filesystems *)

Module Sample.
Import Path FS.

(** [/home/u] holds [a.py], [b.bin], a dot file, a [.git] directory, a
    [node_modules] directory and [src], where [node_modules] is a file. *)
Definition tree : node :=
  Dir true
    [("home",
      Dir true
        [("u",
          Dir true
            [("a.py", File true [x68; x69; x0a]);
             ("b.bin", File true [x00; x01; x02]);
             ("empty.txt", File true []);
             (".gitignore", File true [x2a; x0a]);
             (".git",
              Dir true
                [("c.py", File true []);
                 ("hooks", Dir true [("pre.py", File true [])])]);
             ("node_modules", Dir true [("m.js", File true [])]);
             ("src",
              Dir true
                [("X.PY", File true [x78]);
                 ("node_modules", File true [x6e])])])])].

Definition cwd : path := ["home"; "u"].

Definition here : pathname := mk_pathname false ["."].

(** The same directory listed in two orders. *)
Definition listing_1 : node :=
  Dir true [("a.py", File true [x68]); ("b.py", File true [])].

Definition listing_2 : node :=
  Dir true [("b.py", File true []); ("a.py", File true [x68])].

Definition root_dir : pathname := mk_pathname true [].

Definition noon : Report.datetime := Report.mk_datetime 2024 5 17 12 0 0.

End Sample.

(** ** Commands built on the substrate *)

Module Commands.
Import Path FS Reader Walker.

Definition nl : string := String (ascii_of_nat 10) EmptyString.

(** [md_h1], lines 114-115, and [md_h2], lines 118-119. *)
Definition md_h1 (title : string) : string := ("# " ++ title ++ nl ++ nl)%string.
Definition md_h2 (title : string) : string := ("## " ++ title ++ nl ++ nl)%string.

(** A relative path as the [str] it is in the source. *)
Definition render (rel : list string) : string := String.concat "/" rel.

(** An absolute path as a [str]. *)
Definition render_abs (p : path) : string := ("/" ++ String.concat "/" p)%string.

(** [str(n)] for an [int]. *)
Definition str_of_Z (n : Z) : string := NilZero.string_of_int (Z.to_int n).

(** [sorted(l)] under an order given by [le]: the stable sort, which
    keeps elements that compare equal in the order they came. *)
Section Sorted.
Context {A : Type}.
Variable le : A -> A -> bool.

Fixpoint insert (x : A) (l : list A) : list A :=
  match l with
  | [] => [x]
  | y :: l' => if le x y then x :: l else y :: insert x l'
  end.

Definition sorted (l : list A) : list A := fold_right insert [] l.
End Sorted.

(** [d[k] += v] on a [defaultdict(int)] or a [Counter], kept in
    insertion order as a Python [dict] is. *)
Fixpoint dict_add (k : string) (v : Z) (d : list (string * Z)) : list (string * Z) :=
  match d with
  | [] => [(k, v)]
  | (k', v') :: d' =>
    if String.eqb k' k then (k', (v' + v)%Z) :: d'
    else (k', v') :: dict_add k v d'
  end.

(** [d[k]] on a [Counter]: 0 for a key it does not hold. *)
Fixpoint dict_get (k : string) (d : list (string * Z)) : Z :=
  match d with
  | [] => 0%Z
  | (k', v) :: d' => if String.eqb k' k then v else dict_get k d'
  end.

(** [sum(d.values())] *)
Definition total (d : list (string * Z)) : Z :=
  fold_right Z.add 0%Z (map snd d).

(** [sum(l)] *)
Definition zsum (l : list Z) : Z := fold_right Z.add 0%Z l.

(** [try: size = os.path.getsize(fp)] / [except Exception: size = 0] *)
Definition size_or_zero (fs : node) (fp : path) : Z :=
  match getsize fs fp with
  | Ok size => size
  | Raise _ => 0%Z
  end.

(** The loop of [cmd_large_file_scan], lines 372-379. *)
Definition large_file_findings (fs : node) (cwd : path) (p : pathname)
    (min_bytes : Z) : list (list string * Z) :=
  flat_map
    (fun '(fp, rel) =>
       let size := size_or_zero fs fp in
       if (min_bytes <=? size)%Z then [(rel, size)] else [])
    (iter_files fs cwd p None).

(** [sorted(findings, key=lambda x: -x[1])] *)
Definition by_size_descending (findings : list (list string * Z))
  : list (list string * Z) :=
  sorted (fun a b => (- snd a <=? - snd b)%Z) findings.

(** [cmd_large_file_scan], lines 371-385. *)
Definition cmd_large_file_scan (fs : node) (cwd : path) (p : pathname)
    (min_bytes : Z) : string :=
  let findings := large_file_findings fs cwd p min_bytes in
  String.concat EmptyString
    ([md_h1 "Large File Scanner";
      ("Threshold: " ++ str_of_Z min_bytes ++ " bytes" ++ nl ++ nl)%string]
     ++ map (fun '(rel, size) =>
               ("- " ++ render rel ++ " — " ++ str_of_Z size ++ " bytes" ++ nl)%string)
            (by_size_descending findings)
     ++ match findings with
        | [] => [("No large files found." ++ nl)%string]
        | _ :: _ => []
        end).

(** The loop of [cmd_dir_size_report], lines 918-926; [os.path.dirname]
    of a relative path drops its last component. *)
Definition dir_sizes (fs : node) (cwd : path) (p : pathname) : list (string * Z) :=
  fold_left
    (fun sizes '(fp, rel) =>
       let size := size_or_zero fs fp in
       let d := render (removelast rel) in
       dict_add d size sizes)
    (iter_files fs cwd p None) [].

(** [cmd_dir_size_report], lines 917-930. *)
Definition cmd_dir_size_report (fs : node) (cwd : path) (p : pathname) : string :=
  String.concat EmptyString
    (md_h1 "Directory Size Report"
     :: map (fun '(d, s) =>
               ("- " ++ (if String.eqb d EmptyString then "." else d) ++ ": "
                ++ str_of_Z s ++ " bytes" ++ nl)%string)
            (sorted (fun a b => (- snd a <=? - snd b)%Z)
                    (dir_sizes fs cwd p))).

(** The loop of [cmd_extension_inventory], lines 1972-1975. *)
Definition extension_counts (fs : node) (cwd : path) (p : pathname)
  : list (string * Z) :=
  fold_left
    (fun counts '(fp, rel) =>
       let ext := lower (snd (splitext (render_abs fp))) in
       dict_add ext 1%Z counts)
    (iter_files fs cwd p None) [].

(** [Counter.most_common()]: by count, largest first, ties in insertion
    order. *)
Definition most_common (counts : list (string * Z)) : list (string * Z) :=
  sorted (fun a b => (snd b <=? snd a)%Z) counts.

(** [cmd_extension_inventory], lines 1971-1979. *)
Definition cmd_extension_inventory (fs : node) (cwd : path) (p : pathname) : string :=
  String.concat EmptyString
    (md_h1 "Extension Inventory"
     :: map (fun '(ext, n) =>
               ("- " ++ (if String.eqb ext EmptyString then "(no ext)" else ext)
                ++ ": " ++ str_of_Z n ++ nl)%string)
            (most_common (extension_counts fs cwd p))).

(** The loop of [cmd_empty_file_scan], lines 1072-1078. *)
Definition empty_files (fs : node) (cwd : path) (p : pathname) : list (list string) :=
  flat_map
    (fun '(fp, rel) =>
       match getsize fs fp with
       | Ok size => if (size =? 0)%Z then [rel] else []
       | Raise _ => []
       end)
    (iter_files fs cwd p None).

(** [cmd_empty_file_scan], lines 1071-1083. *)
Definition cmd_empty_file_scan (fs : node) (cwd : path) (p : pathname) : string :=
  let empties := empty_files fs cwd p in
  String.concat EmptyString
    (md_h1 "Empty File Scanner"
     :: map (fun rel => ("- " ++ render rel ++ nl)%string) empties
     ++ match empties with
        | [] => [("No empty files found." ++ nl)%string]
        | _ :: _ => []
        end).

(** The loop of [cmd_binary_file_inventory], lines 1467-1474:
    [f.read(1024)] gives the first 1024 bytes. *)
Definition binary_files (fs : node) (cwd : path) (p : pathname) : list (list string) :=
  flat_map
    (fun '(fp, rel) =>
       match read_bytes fs fp with
       | Ok data =>
         if Classifier.is_binary_bytes (firstn 1024 data) then [rel] else []
       | Raise _ => []
       end)
    (iter_files fs cwd p None).

(** [cmd_binary_file_inventory], lines 1465-1477. *)
Definition cmd_binary_file_inventory (fs : node) (cwd : path) (p : pathname) : string :=
  let lines := map (fun rel => ("- " ++ render rel ++ nl)%string)
                   (binary_files fs cwd p) in
  String.concat EmptyString
    (md_h1 "Binary File Inventory"
     :: lines
     ++ match lines with
        | [] => [("No binary files detected." ++ nl)%string]
        | _ :: _ => []
        end).

(** [data.count(sub)] for a pattern of one byte. *)
Definition count1 (b : byte) (data : list byte) : Z :=
  Z.of_nat (List.length (filter (Byte.eqb b) data)).

(** [data.count(sub)] for a pattern of two bytes: occurrences that do
    not overlap, found from the left. *)
Fixpoint count2 (a b : byte) (data : list byte) : Z :=
  match data with
  | [] => 0
  | x :: rest =>
    match rest with
    | [] => 0
    | y :: rest' =>
      if Byte.eqb x a && Byte.eqb y b then (1 + count2 a b rest')%Z
      else count2 a b rest
    end
  end.

Definition CR : byte := x0d.
Definition LF : byte := x0a.

(** What one file adds to the three counters, lines 620-622. *)
Definition newline_counts (data : list byte) : Z * Z * Z :=
  (count2 CR LF data,
   (count1 LF data - count2 CR LF data)%Z,
   (count1 CR data - count2 CR LF data)%Z).

(** One turn of the loop of [cmd_newline_consistency_scan], lines
    613-622: [f.read(50_000)] gives the first 50000 bytes. *)
#[warnings="-abstract-large-number"]
Definition newline_step (fs : node) (counts : list (string * Z))
    (entry : path * list string) : list (string * Z) :=
  let '(fp, rel) := entry in
  match read_bytes fs fp with
  | Raise _ => counts
  | Ok whole =>
    let data := firstn 50000 whole in
    let '(crlf, lf, cr) := newline_counts data in
    dict_add "CR" cr (dict_add "LF" lf (dict_add "CRLF" crlf counts))
  end.

Definition newline_totals (fs : node) (cwd : path) (p : pathname)
  : list (string * Z) :=
  fold_left (newline_step fs) (iter_files fs cwd p None) [].

(** [cmd_newline_consistency_scan], lines 611-625. *)
Definition cmd_newline_consistency_scan (fs : node) (cwd : path)
    (p : pathname) : string :=
  String.concat EmptyString
    (md_h1 "Newline Consistency Scanner"
     :: map (fun '(k, v) => ("- " ++ k ++ ": " ++ str_of_Z v ++ nl)%string)
            (newline_totals fs cwd p)).

Definition TEXT_EXTS : list string :=
  [".py"; ".js"; ".ts"; ".tsx"; ".jsx"; ".css"; ".scss"; ".html"; ".xml";
   ".json"; ".md"; ".rst"; ".txt"; ".csv"; ".yml"; ".yaml"; ".toml"; ".ini";
   ".java"; ".kt"; ".swift"; ".go"; ".rb"; ".rs"; ".cpp"; ".c"; ".h"].

(** Lines 1504-1510: the newlines counted from the end of the text, up
    to the first other character. *)
Fixpoint leading_newlines (reversed : Utf8.str) : nat :=
  match reversed with
  | ch :: rest => if (ch =? 10)%N then S (leading_newlines rest) else O
  | [] => O
  end.

Definition trailing_newlines (text : Utf8.str) : nat :=
  leading_newlines (rev text).

(** The loop of [cmd_trailing_empty_lines_scan], lines 1498-1512. *)
Definition trailing_findings (fs : node) (cwd : path) (p : pathname)
    (min_trailing : Z) : list (list string * nat) :=
  flat_map
    (fun '(fp, rel) =>
       match read_text_safe (os_of fs) fp DEFAULT_MAX_BYTES with
       | Ok (Some text) =>
         let trail := trailing_newlines text in
         if (min_trailing <=? Z.of_nat trail)%Z then [(rel, trail)] else []
       | _ => []
       end)
    (iter_files fs cwd p (Some TEXT_EXTS)).

(** [cmd_trailing_empty_lines_scan], lines 1497-1517. *)
Definition cmd_trailing_empty_lines_scan (fs : node) (cwd : path)
    (p : pathname) (min_trailing : Z) : string :=
  let findings := trailing_findings fs cwd p min_trailing in
  String.concat EmptyString
    ([md_h1 "Trailing Empty Lines Scanner";
      ("Min trailing: " ++ str_of_Z min_trailing ++ nl ++ nl)%string]
     ++ map (fun '(rel, trail) =>
               ("- " ++ render rel ++ " — " ++ str_of_Z (Z.of_nat trail)
                ++ " trailing newlines" ++ nl)%string)
            findings
     ++ match findings with
        | [] => [("No files with excessive trailing newlines." ++ nl)%string]
        | _ :: _ => []
        end).

(** [os.path.basename] of an absolute path. *)
Definition basename (p : path) : string := last p EmptyString.

Fixpoint path_eqb (p q : path) : bool :=
  match p, q with
  | [], [] => true
  | c :: p', d :: q' => String.eqb c d && path_eqb p' q'
  | _, _ => false
  end.

(** [s * n] *)
Fixpoint times (s : string) (n : nat) : string :=
  match n with
  | O => EmptyString
  | S n' => (s ++ times s n')%string
  end.

(** The components of [os.path.relpath(root, base)], which does not
    raise on absolute paths. *)
Definition relpath_parts (root base : path) : list string :=
  match relpath root base with
  | Ok r => r
  | Raise _ => []
  end.

(** The body of the loop of [_tree_lines], lines 778-787. *)
Definition tree_lines_body (base root : path) (dirs files : list string)
  : list string * list string :=
  let level := (List.length (relpath_parts root base) - 1)%nat in
  let prefix := times "    " level in
  (filter should_descend dirs,
   (if path_eqb root base
    then (if String.eqb (basename base) EmptyString then render_abs base
          else basename base)
    else (prefix ++ basename root ++ "/")%string)
   :: map (fun name => (prefix ++ "    " ++ name)%string)
          (sorted String.leb files)).

(** [_tree_lines], lines 775-788. *)
Definition tree_lines (fs : node) (cwd : path) (p : pathname) : list string :=
  let base := abspath cwd p in
  os_walk (tree_lines_body base) fs base.

End Commands.

(** ** Conditions on inputs *)

Module Conditions.
Import Path.

(** A component as a directory listing or a normal path has it. *)
Definition plain (c : string) : Prop :=
  c <> EmptyString /\ c <> curdir /\ c <> pardir.

(** Date and time fields that fit their columns in the stamp. *)
Definition in_columns (t : Report.datetime) : Prop :=
  (Z.of_nat (Report.year t) < 10000)%Z
  /\ (Report.month t < 100 /\ Report.day t < 100
      /\ Report.hour t < 100 /\ Report.minute t < 100
      /\ Report.second t < 100)%nat.

(** The characters of a string. *)
Definition chars (s : string) : list ascii := list_ascii_of_string s.

(** [c] does not occur in [s]. *)
Definition free_of (c : ascii) (s : string) : Prop := ~ In c (chars s).

(** [s] is made of the character [c] alone (or is empty). *)
Definition only (c : ascii) (s : string) : Prop := Forall (eq c) (chars s).

(** Every character of [s] is a 7-bit (ASCII) character. *)
Definition seven_bit (s : string) : Prop :=
  Forall (fun c => (nat_of_ascii c < 128)%nat) (chars s).




End Conditions.

(** ** More sample data *)

Module Sample2.
Import Path FS.

(** A text of 1024 letters followed by a null byte. *)
Definition long_head : list byte := repeat x41 1024.

Definition long_tree : node :=
  Dir true [("long.txt", File true (long_head ++ [x00; x42]))].

(** A file that starts with a byte order mark. *)
Definition bom_tree : node :=
  Dir true [("bom.txt", File true [xef; xbb; xbf; x68; x69])].

Definition morning : Report.datetime := Report.mk_datetime 2024 5 17 9 30 0.



End Sample2.

(** * Properties *)

(** ** Binary detection *)

Section ClassifierFacts.
Import Classifier.

Lemma has_null_In chunk : has_null chunk = true <-> In x00 chunk.
Proof.
  unfold has_null. rewrite existsb_exists. split.
  - intros [b [Hin Hb]]. apply Byte.byte_dec_bl in Hb. now subst.
  - intro H. exists x00. split; [assumption | reflexivity].
Qed.

Lemma in_text_characters_allowed b : in_text_characters b = allowed_byteb b.
Proof. destruct b; vm_compute; reflexivity. Qed.

Lemma allowed_byteb_spec b : allowed_byteb b = true <-> allowed_byte b.
Proof.
  unfold allowed_byteb, allowed_byte.
  rewrite orb_true_iff, andb_true_iff, existsb_exists, !N.leb_le.
  split.
  - intros [[x [Hin Hx]] | H]; [left | right; exact H].
    apply N.eqb_eq in Hx. now rewrite Hx.
  - intros [H | H]; [left | right; exact H].
    exists (byte_val b). split; [exact H | apply N.eqb_refl].
Qed.

Lemma translate_delete_outside chunk :
  translate_delete chunk = filter (fun b => negb (allowed_byteb b)) chunk.
Proof.
  unfold translate_delete. apply filter_ext. intro b.
  now rewrite in_text_characters_allowed.
Qed.

Lemma translate_delete_length chunk :
  (List.length (translate_delete chunk) <= List.length chunk)%nat.
Proof. apply filter_length_le. Qed.

(** The rational comparison, cross-multiplied. *)
Lemma Qgtb_ratio (a b : nat) :
  (0 < b)%nat ->
  Qgtb (inject_Z (Z.of_nat a) / inject_Z (Z.of_nat b)) (30 # 100)
  = (3 * b <? 10 * a)%nat.
Proof.
  intro Hb. unfold Qgtb.
  destruct (3 * b <? 10 * a)%nat eqn:E.
  - apply Nat.ltb_lt in E. apply negb_true_iff.
    destruct (Qle_bool _ _) eqn:F; [exfalso | reflexivity].
    apply Qle_bool_iff in F. revert F. apply Qlt_not_le.
    apply Qlt_shift_div_l.
    + unfold Qlt, inject_Z. simpl. lia.
    + unfold Qlt, Qmult, inject_Z. cbn [Qnum Qden]. lia.
  - apply Nat.ltb_ge in E. apply negb_false_iff. apply Qle_bool_iff.
    apply Qle_shift_div_r.
    + unfold Qlt, inject_Z. simpl. lia.
    + unfold Qle, Qmult, inject_Z. cbn [Qnum Qden]. lia.
Qed.

Lemma is_binary_bytes_cross chunk :
  is_binary_bytes chunk
  = has_null chunk
    || (3 * List.length chunk <? 10 * List.length (translate_delete chunk))%nat.
Proof.
  unfold is_binary_bytes. destruct (has_null chunk); [reflexivity | simpl].
  destruct chunk as [| b chunk'].
  - reflexivity.
  - replace (Nat.max 1 (List.length (b :: chunk'))) with (List.length (b :: chunk'))
      by (simpl; lia).
    apply Qgtb_ratio. simpl. lia.
Qed.

Lemma fraction_outside_exceeds sample :
  (30 # 100 < fraction_outside sample)%Q
  <-> (3 * List.length sample < 10 * List.length (translate_delete sample))%nat.
Proof.
  unfold fraction_outside. rewrite <- translate_delete_outside.
  destruct sample as [| b s'].
  - simpl. unfold Qlt. simpl. lia.
  - set (a := List.length (translate_delete (b :: s'))).
    set (n := List.length (b :: s')).
    assert (Hn : (0 < n)%nat) by (subst n; simpl; lia).
    pose proof (Qgtb_ratio a n Hn) as H. unfold Qgtb in H.
    split; intro K.
    + apply Nat.ltb_lt. rewrite <- H. apply negb_true_iff.
      destruct (Qle_bool _ _) eqn:F; [| reflexivity].
      apply Qle_bool_iff in F. exfalso. revert F. now apply Qlt_not_le.
    + apply Nat.ltb_lt in K. rewrite <- H in K. apply negb_true_iff in K.
      apply Qnot_le_lt. intro F. apply Qle_bool_iff in F. congruence.
Qed.

(** *** The quotient in 64-bit floating point *)

Lemma zrange_In (n : nat) : forall lo x,
  In x (F64.zrange lo n) <-> (lo <= x < lo + Z.of_nat n)%Z.
Proof.
  induction n as [| n IH]; intros lo x; simpl F64.zrange.
  - simpl. lia.
  - simpl In. rewrite IH. lia.
Qed.

(** Every quotient [a / b] with [0 <= a <= b <= 1024], computed. *)
Lemma f64_quotient_table :
  forallb (fun b =>
    forallb (fun a =>
      Bool.eqb (F64.quotient_exceeds a b) (3 * b <? 10 * a)%Z)
      (F64.zrange 0 (Z.to_nat (b + 1))))
    (F64.zrange 1 1024) = true.
Proof. vm_cast_no_check (eq_refl true). Qed.

Lemma f64_ratio_exact (a b : nat) :
  (a <= b <= 1024)%nat ->
  F64.ratio_exceeds a b = (3 * b <? 10 * a)%nat.
Proof.
  intros [Hab Hb]. unfold F64.ratio_exceeds.
  destruct b as [| b'].
  - assert (a = 0)%nat by lia. subst a. vm_compute. reflexivity.
  - replace (Nat.max 1 (S b')) with (S b') by lia.
    pose proof f64_quotient_table as T.
    rewrite forallb_forall in T.
    specialize (T (Z.of_nat (S b'))). rewrite forallb_forall in T.
    assert (Hin : In (Z.of_nat (S b')) (F64.zrange 1 1024))
      by (apply zrange_In; lia).
    specialize (T Hin (Z.of_nat a)).
    assert (Hia : In (Z.of_nat a) (F64.zrange 0 (Z.to_nat (Z.of_nat (S b') + 1))))
      by (apply zrange_In; lia).
    specialize (T Hia). apply eqb_prop in T. rewrite T.
    destruct (Z.ltb_spec (3 * Z.of_nat (S b')) (10 * Z.of_nat a));
      symmetry; [apply Nat.ltb_lt | apply Nat.ltb_ge]; lia.
Qed.

(** On a sample of at most 1024 bytes, which is all [read_text_safe]
    passes, the 64-bit float quotient decides as the exact one. *)
Lemma is_binary_bytes_f64_exact chunk :
  (List.length chunk <= 1024)%nat ->
  is_binary_bytes_f64 chunk = is_binary_bytes chunk.
Proof.
  intro Hlen. rewrite is_binary_bytes_cross. unfold is_binary_bytes_f64.
  destruct (has_null chunk); [reflexivity | simpl].
  apply f64_ratio_exact. pose proof (translate_delete_length chunk). lia.
Qed.

(** C2. [is_binary_bytes] answers true exactly when the sample holds a
    null byte or more than 0.30 of its bytes lie outside
    {7,8,9,10,12,13,27} and [0x20,0xFF]; it answers false on the empty
    sample; and on samples of at most 1024 bytes the float computation of
    the source agrees with the exact quotient. *)
Theorem is_binary_bytes_iff (sample : list byte) :
  (is_binary_bytes sample = true
   <-> In x00 sample \/ (30 # 100 < fraction_outside sample)%Q)
  /\ is_binary_bytes [] = false
  /\ ((List.length sample <= 1024)%nat ->
      is_binary_bytes_f64 sample = is_binary_bytes sample).
Proof.
  split; [| split; [reflexivity | apply is_binary_bytes_f64_exact]].
  rewrite is_binary_bytes_cross, orb_true_iff, has_null_In, Nat.ltb_lt.
  now rewrite fraction_outside_exceeds.
Qed.

End ClassifierFacts.

(** ** UTF-8 *)

Section Utf8Facts.
Import Utf8.

Lemma emit_ok c rest :
  (exists s, rest = Ok s) -> exists s, emit c rest = Ok s.
Proof. intros [s ->]. simpl. eauto. Qed.

Lemma on_error_replace_ok rest :
  (exists s, rest = Ok s) -> exists s, on_error Replace rest = Ok s.
Proof. apply emit_ok. Qed.

(** With the [replace] handler the decoder returns a string for every
    input of at most [n] bytes, for every [n]. *)
Lemma decode_replace_bounded (n : nat) : forall bs,
  (List.length bs <= n)%nat -> exists s, decode Replace bs = Ok s.
Proof.
  induction n as [| n IH]; intros bs Hlen.
  - destruct bs; [simpl; eauto | simpl in Hlen; lia].
  - destruct bs as [| b0 r0]; [simpl; eauto |].
    simpl in Hlen.
    assert (H0 : exists s, decode Replace r0 = Ok s) by (apply IH; lia).
    simpl decode.
    repeat match goal with
           | |- exists s, (if ?c then _ else _) = Ok s => destruct c
           | |- exists s, emit _ _ = Ok s => apply emit_ok
           | |- exists s, on_error Replace _ = Ok s => apply on_error_replace_ok
           | |- exists s, match ?l with [] => _ | _ :: _ => _ end = Ok s =>
             destruct l; simpl in Hlen
           | |- exists s, decode Replace _ = Ok s =>
             first [ assumption | apply IH; simpl; lia ]
           | |- exists s, Ok _ = Ok s => eauto
           end.
Qed.

Lemma decode_replace_total bs : exists s, decode Replace bs = Ok s.
Proof. apply (decode_replace_bounded (List.length bs)). lia. Qed.

(** The strict handler does raise, so totality is the handler's doing. *)
Lemma decode_strict_raises : decode Strict [xff] = Raise UnicodeDecodeError.
Proof. reflexivity. Qed.

Ltac nlia := zify; Z.to_euclidean_division_equations; lia.

Lemma val_byte_of n : (n < 256)%N -> val (byte_of n) = n.
Proof.
  intro H. unfold val, byte_of.
  destruct (Byte.of_N n) as [b |] eqn:E.
  - now apply Byte.to_of_N.
  - apply Byte.of_N_None_iff in E. lia.
Qed.

Lemma testbit_small y k m : (y < 2 ^ k)%N -> (k <= m)%N -> N.testbit y m = false.
Proof.
  intros Hy Hkm. destruct (N.eq_dec y 0) as [-> | Hne].
  - apply N.bits_0.
  - apply N.bits_above_log2.
    apply N.lt_le_trans with k; [| assumption].
    apply N.log2_lt_pow2; [lia | assumption].
Qed.

(** Bits that do not overlap add up. *)
Lemma lor_shiftl_add x y k :
  (y < 2 ^ k)%N -> N.lor (N.shiftl x k) y = (x * 2 ^ k + y)%N.
Proof.
  intro Hy. rewrite <- N.shiftl_mul_pow2.
  assert (H0 : N.land (N.shiftl x k) y = 0%N).
  { apply N.bits_inj. intro m. rewrite N.land_spec, N.bits_0.
    destruct (N.lt_ge_cases m k) as [Hlt | Hge].
    - now rewrite N.shiftl_spec_low.
    - rewrite (testbit_small y k m Hy Hge). apply andb_false_r. }
  now rewrite (N.add_nocarry_lxor _ _ H0), (N.lxor_lor _ _ H0).
Qed.

Lemma lor_const_add (hi k y : N) :
  (y < 2 ^ k)%N -> N.lor (N.shiftl hi k) y = (hi * 2 ^ k + y)%N.
Proof. apply lor_shiftl_add. Qed.

Lemma land_mask a k : N.land a (N.ones k) = (a mod 2 ^ k)%N.
Proof. apply N.land_ones. Qed.

Lemma shiftr_div a k : N.shiftr a k = (a / 2 ^ k)%N.
Proof. apply N.shiftr_div_pow2. Qed.

Lemma low6_mod b : low6 b = (val b mod 64)%N.
Proof. unfold low6. change 0x3F%N with (N.ones 6). now rewrite land_mask. Qed.

Lemma cp2_sum b0 b1 :
  cp2 b0 b1 = ((val b0 mod 32) * 64 + val b1 mod 64)%N.
Proof.
  unfold cp2. rewrite low6_mod. change 0x1F%N with (N.ones 5).
  rewrite land_mask, lor_shiftl_add; [reflexivity |].
  change (2 ^ 6)%N with 64%N. nlia.
Qed.

Lemma cp3_sum b0 b1 b2 :
  cp3 b0 b1 b2
  = ((val b0 mod 16) * 4096 + (val b1 mod 64) * 64 + val b2 mod 64)%N.
Proof.
  unfold cp3. rewrite !low6_mod. change 0x0F%N with (N.ones 4).
  rewrite land_mask.
  rewrite (lor_shiftl_add (val b1 mod 64) (val b2 mod 64) 6)
    by (change (2 ^ 6)%N with 64%N; nlia).
  rewrite lor_shiftl_add by (change (2 ^ 6)%N with 64%N;
                             change (2 ^ 12)%N with 4096%N; nlia).
  change (2 ^ 6)%N with 64%N. change (2 ^ 12)%N with 4096%N.
  change (2 ^ 4)%N with 16%N. lia.
Qed.

Lemma cp4_sum b0 b1 b2 b3 :
  cp4 b0 b1 b2 b3
  = ((val b0 mod 8) * 262144 + (val b1 mod 64) * 4096
     + (val b2 mod 64) * 64 + val b3 mod 64)%N.
Proof.
  unfold cp4. rewrite !low6_mod. change 0x07%N with (N.ones 3).
  rewrite land_mask.
  rewrite (lor_shiftl_add (val b2 mod 64) (val b3 mod 64) 6)
    by (change (2 ^ 6)%N with 64%N; nlia).
  rewrite (lor_shiftl_add (val b1 mod 64) _ 12)
    by (change (2 ^ 6)%N with 64%N; change (2 ^ 12)%N with 4096%N; nlia).
  rewrite lor_shiftl_add
    by (change (2 ^ 6)%N with 64%N; change (2 ^ 12)%N with 4096%N;
        change (2 ^ 18)%N with 262144%N; nlia).
  change (2 ^ 6)%N with 64%N. change (2 ^ 12)%N with 4096%N.
  change (2 ^ 18)%N with 262144%N. change (2 ^ 3)%N with 8%N. lia.
Qed.

Lemma val_cont_byte c s :
  val (cont_byte c s) = (128 + (c / 2 ^ s) mod 64)%N.
Proof.
  unfold cont_byte. change 0x3F%N with (N.ones 6).
  rewrite land_mask, shiftr_div.
  change 0x80%N with (N.shiftl 2 6).
  rewrite lor_shiftl_add by (change (2 ^ 6)%N with 64%N; nlia).
  change (2 ^ 6)%N with 64%N.
  rewrite val_byte_of; [reflexivity | nlia].
Qed.

Lemma val_lead_byte (tag hi k c s : N) :
  tag = N.shiftl hi k -> (c / 2 ^ s < 2 ^ k)%N -> (hi * 2 ^ k + c / 2 ^ s < 256)%N ->
  val (byte_of (N.lor tag (N.shiftr c s))) = (hi * 2 ^ k + c / 2 ^ s)%N.
Proof.
  intros -> Hlt Hb. rewrite shiftr_div, lor_shiftl_add by assumption.
  now apply val_byte_of.
Qed.

Ltac pow_consts :=
  change (2 ^ 0)%N with 1%N in *; change (2 ^ 3)%N with 8%N in *;
  change (2 ^ 4)%N with 16%N in *; change (2 ^ 5)%N with 32%N in *;
  change (2 ^ 6)%N with 64%N in *; change (2 ^ 12)%N with 4096%N in *;
  change (2 ^ 18)%N with 262144%N in *.

(** Turn a goal made of byte-range tests on arithmetic terms into
    linear arithmetic. *)
Ltac ranges :=
  unfold second_of_three, second_of_four, is_continuation, between;
  repeat match goal with
         | |- context [if ?b then _ else _] =>
           let E := fresh "E" in destruct b eqn:E
         end;
  repeat match goal with
         | H : (_ =? _)%N = true |- _ => apply N.eqb_eq in H
         | H : (_ =? _)%N = false |- _ => apply N.eqb_neq in H
         end;
  repeat (apply andb_true_iff; split);
  repeat match goal with
         | |- negb _ = true => apply negb_true_iff
         | |- (_ && _) = false => apply andb_false_iff
         end;
  rewrite ?N.ltb_lt, ?N.ltb_ge, ?N.leb_le, ?N.leb_gt, ?N.eqb_eq;
  pow_consts; nlia.

Lemma well_formed_all c : well_formed c = true.
Proof.
  unfold well_formed, encode_code_point.
  destruct (c <? 0x80)%N eqn:H1.
  { apply N.ltb_lt in H1. rewrite val_byte_of by lia.
    apply andb_true_iff. split; [apply N.ltb_lt; lia | apply N.eqb_refl]. }
  apply N.ltb_ge in H1.
  destruct (c <? 0x800)%N eqn:H2.
  { apply N.ltb_lt in H2.
    unfold is_continuation.
    rewrite cp2_sum, !val_cont_byte.
    rewrite !(val_lead_byte 0xC0 6 5 c 6) by (try reflexivity; pow_consts; nlia).
    ranges. }
  apply N.ltb_ge in H2.
  destruct (between 0xD800 c 0xDFFF) eqn:H3; [reflexivity |].
  assert (H3' : (c < 0xD800 \/ 0xDFFF < c)%N).
  { unfold between in H3. apply andb_false_iff in H3.
    rewrite !N.leb_gt in H3. tauto. }
  clear H3.
  destruct (c <? 0x10000)%N eqn:H4.
  { apply N.ltb_lt in H4.
    unfold second_of_three, is_continuation.
    rewrite cp3_sum, !val_cont_byte.
    rewrite !(val_lead_byte 0xE0 14 4 c 12) by (try reflexivity; pow_consts; nlia).
    ranges. }
  apply N.ltb_ge in H4.
  destruct (c <? 0x110000)%N eqn:H5; [| reflexivity].
  apply N.ltb_lt in H5.
  unfold second_of_four, is_continuation.
  rewrite cp4_sum, !val_cont_byte.
  rewrite !(val_lead_byte 0xF0 30 3 c 18) by (try reflexivity; pow_consts; nlia).
  ranges.
Qed.

Lemma decode_encoded_code_point c bs h rest :
  encode_code_point c = Ok bs ->
  decode h (bs ++ rest) = emit c (decode h rest).
Proof.
  intro He. pose proof (well_formed_all c) as W.
  unfold well_formed in W. rewrite He in W.
  destruct bs as [| b0 [| b1 [| b2 [| b3 [| b4 bs']]]]]; try discriminate;
    repeat match type of W with
           | (_ && _) = true => apply andb_true_iff in W; destruct W as [W ?]
           end;
    repeat match goal with
           | H : negb _ = true |- _ => apply negb_true_iff in H
           | H : (_ =? _)%N = true |- _ => apply N.eqb_eq in H
           end;
    simpl app; cbn [decode];
    repeat match goal with
           | H : ?x = _ |- context [if ?x then _ else _] => rewrite H
           end;
    congruence.
Qed.

(** Decoding inverts encoding, under either handler. *)
Lemma decode_encode h : forall s bs,
  encode s = Ok bs -> decode h bs = Ok s.
Proof.
  induction s as [| c s IH]; intros bs He; simpl in He.
  - injection He as <-. reflexivity.
  - destruct (encode_code_point c) as [b |] eqn:Hc; [| discriminate].
    destruct (encode s) as [r |] eqn:Hs; [| discriminate].
    simpl in He. injection He as <-.
    rewrite (decode_encoded_code_point c b h r Hc), (IH r eq_refl).
    reflexivity.
Qed.

(** *** Encoding what was decoded, and the [replace] handler *)

Lemma byte_of_val b n : n = val b -> byte_of n = b.
Proof.
  intros ->. unfold byte_of, val. now rewrite Byte.of_to_N.
Qed.

Lemma val_bound b : (val b < 256)%N.
Proof. unfold val. pose proof (Byte.to_N_bounded b). lia. Qed.

Lemma between_iff lo x hi :
  between lo x hi = true <-> (lo <= x <= hi)%N.
Proof.
  unfold between. rewrite andb_true_iff, !N.leb_le. tauto.
Qed.

Lemma cont_byte_val c s b :
  (128 + (c / 2 ^ s) mod 64)%N = val b -> cont_byte c s = b.
Proof.
  intro H. pose proof (val_cont_byte c s) as V. rewrite H in V.
  rewrite <- (byte_of_val (cont_byte c s) _ eq_refl), V.
  now apply byte_of_val.
Qed.

Lemma lead_byte_val (tag hi k c s : N) b :
  tag = N.shiftl hi k -> (c / 2 ^ s < 2 ^ k)%N ->
  (hi * 2 ^ k + c / 2 ^ s)%N = val b ->
  byte_of (N.lor tag (N.shiftr c s)) = b.
Proof.
  intros Ht Hlt Hv. apply byte_of_val.
  subst tag. rewrite shiftr_div, lor_shiftl_add by assumption. exact Hv.
Qed.

Lemma encode_decoded_1 b0 :
  (val b0 <? 0x80)%N = true -> encode_code_point (val b0) = Ok [b0].
Proof.
  intro H. unfold encode_code_point. rewrite H.
  now rewrite (byte_of_val b0 (val b0)).
Qed.

Lemma encode_decoded_2 b0 b1 :
  between 0xC2 (val b0) 0xDF = true -> is_continuation b1 = true ->
  encode_code_point (cp2 b0 b1) = Ok [b0; b1].
Proof.
  unfold is_continuation. rewrite !between_iff. intros H0 H1.
  pose proof (cp2_sum b0 b1) as E.
  unfold encode_code_point.
  replace (cp2 b0 b1 <? 0x80)%N with false by (symmetry; apply N.ltb_ge; nlia).
  replace (cp2 b0 b1 <? 0x800)%N with true by (symmetry; apply N.ltb_lt; nlia).
  rewrite (lead_byte_val 0xC0 3 6 (cp2 b0 b1) 6 b0)
    by (try reflexivity; pow_consts; nlia).
  rewrite (cont_byte_val (cp2 b0 b1) 0 b1) by (pow_consts; nlia).
  reflexivity.
Qed.

Lemma encode_decoded_3 b0 b1 b2 :
  between 0xE0 (val b0) 0xEF = true -> second_of_three b0 b1 = true ->
  is_continuation b2 = true ->
  encode_code_point (cp3 b0 b1 b2) = Ok [b0; b1; b2].
Proof.
  unfold is_continuation, second_of_three.
  intros H0 H1 H2.
  assert (R : (0xE0 <= val b0 <= 0xEF /\ 0x80 <= val b1 <= 0xBF
               /\ (val b0 = 0xE0 -> 0xA0 <= val b1)
               /\ (val b0 = 0xED -> val b1 <= 0x9F)
               /\ 0x80 <= val b2 <= 0xBF)%N).
  { apply between_iff in H0. apply between_iff in H2.
    destruct (N.eqb_spec (val b0) 0xE0) as [E0 | E0].
    - apply between_iff in H1. lia.
    - destruct (N.eqb_spec (val b0) 0xED) as [E1 | E1];
        apply between_iff in H1; lia. }
  clear H0 H1 H2.
  pose proof (cp3_sum b0 b1 b2) as E.
  unfold encode_code_point.
  replace (cp3 b0 b1 b2 <? 0x80)%N with false by (symmetry; apply N.ltb_ge; nlia).
  replace (cp3 b0 b1 b2 <? 0x800)%N with false by (symmetry; apply N.ltb_ge; nlia).
  replace (between 0xD800 (cp3 b0 b1 b2) 0xDFFF) with false.
  2:{ symmetry. unfold between. apply andb_false_iff. rewrite !N.leb_gt. nlia. }
  replace (cp3 b0 b1 b2 <? 0x10000)%N with true by (symmetry; apply N.ltb_lt; nlia).
  rewrite (lead_byte_val 0xE0 14 4 (cp3 b0 b1 b2) 12 b0)
    by (try reflexivity; pow_consts; nlia).
  rewrite (cont_byte_val (cp3 b0 b1 b2) 6 b1) by (pow_consts; nlia).
  rewrite (cont_byte_val (cp3 b0 b1 b2) 0 b2) by (pow_consts; nlia).
  reflexivity.
Qed.

Lemma encode_decoded_4 b0 b1 b2 b3 :
  between 0xF0 (val b0) 0xF4 = true -> second_of_four b0 b1 = true ->
  is_continuation b2 = true -> is_continuation b3 = true ->
  encode_code_point (cp4 b0 b1 b2 b3) = Ok [b0; b1; b2; b3].
Proof.
  unfold is_continuation, second_of_four.
  intros H0 H1 H2 H3.
  assert (R : (0xF0 <= val b0 <= 0xF4 /\ 0x80 <= val b1 <= 0xBF
               /\ (val b0 = 0xF0 -> 0x90 <= val b1)
               /\ (val b0 = 0xF4 -> val b1 <= 0x8F)
               /\ 0x80 <= val b2 <= 0xBF /\ 0x80 <= val b3 <= 0xBF)%N).
  { apply between_iff in H0. apply between_iff in H2. apply between_iff in H3.
    destruct (N.eqb_spec (val b0) 0xF0) as [E0 | E0].
    - apply between_iff in H1. lia.
    - destruct (N.eqb_spec (val b0) 0xF4) as [E1 | E1];
        apply between_iff in H1; lia. }
  clear H0 H1 H2 H3.
  pose proof (cp4_sum b0 b1 b2 b3) as E.
  unfold encode_code_point.
  replace (cp4 b0 b1 b2 b3 <? 0x80)%N with false
    by (symmetry; apply N.ltb_ge; nlia).
  replace (cp4 b0 b1 b2 b3 <? 0x800)%N with false
    by (symmetry; apply N.ltb_ge; nlia).
  replace (between 0xD800 (cp4 b0 b1 b2 b3) 0xDFFF) with false.
  2:{ symmetry. unfold between. apply andb_false_iff. rewrite !N.leb_gt. nlia. }
  replace (cp4 b0 b1 b2 b3 <? 0x10000)%N with false
    by (symmetry; apply N.ltb_ge; nlia).
  replace (cp4 b0 b1 b2 b3 <? 0x110000)%N with true
    by (symmetry; apply N.ltb_lt; nlia).
  rewrite (lead_byte_val 0xF0 30 3 (cp4 b0 b1 b2 b3) 18 b0)
    by (try reflexivity; pow_consts; nlia).
  rewrite (cont_byte_val (cp4 b0 b1 b2 b3) 12 b1) by (pow_consts; nlia).
  rewrite (cont_byte_val (cp4 b0 b1 b2 b3) 6 b2) by (pow_consts; nlia).
  rewrite (cont_byte_val (cp4 b0 b1 b2 b3) 0 b3) by (pow_consts; nlia).
  reflexivity.
Qed.


(** The shape of a UTF-8 form, from the lead byte on. *)
Lemma form_shape c enc :
  encode_code_point c = Ok enc ->
  match enc with
  | [b0] => (val b0 <? 0x80)%N = true
  | [b0; b1] =>
    (val b0 <? 0x80)%N = false /\ between 0xC2 (val b0) 0xDF = true
    /\ is_continuation b1 = true
  | [b0; b1; b2] =>
    (val b0 <? 0x80)%N = false /\ between 0xC2 (val b0) 0xDF = false
    /\ between 0xE0 (val b0) 0xEF = true /\ second_of_three b0 b1 = true
    /\ is_continuation b2 = true
  | [b0; b1; b2; b3] =>
    (val b0 <? 0x80)%N = false /\ between 0xC2 (val b0) 0xDF = false
    /\ between 0xE0 (val b0) 0xEF = false /\ between 0xF0 (val b0) 0xF4 = true
    /\ second_of_four b0 b1 = true /\ is_continuation b2 = true
    /\ is_continuation b3 = true
  | _ => False
  end.
Proof.
  intro He. pose proof (well_formed_all c) as W.
  unfold well_formed in W. rewrite He in W.
  destruct enc as [| b0 [| b1 [| b2 [| b3 [| b4 bs']]]]]; try discriminate;
    repeat match type of W with
           | (_ && _) = true => apply andb_true_iff in W; destruct W as [W ?]
           end;
    repeat match goal with
           | H : negb _ = true |- _ => apply negb_true_iff in H
           end;
    auto 10.
Qed.

Ltac not_a_form :=
  let c := fresh "c" in let enc := fresh "enc" in let suf := fresh "suf" in
  let He := fresh "He" in let Heq := fresh "Heq" in
  intros (c & enc & suf & He & Heq);
  apply form_shape in He; rewrite Heq in He; simpl in He;
  repeat match type of He with
         | match ?l with [] => _ | _ :: _ => _ end => destruct l
         end;
  intuition congruence.

Lemma starts_form_2_of_3 b0 b1 :
  between 0xE0 (val b0) 0xEF = true -> second_of_three b0 b1 = true ->
  starts_form [b0; b1].
Proof.
  intros H0 H1. exists (cp3 b0 b1 x80), [b0; b1; x80], [x80].
  split; [now apply encode_decoded_3 | reflexivity].
Qed.

Lemma starts_form_2_of_4 b0 b1 :
  between 0xF0 (val b0) 0xF4 = true -> second_of_four b0 b1 = true ->
  starts_form [b0; b1].
Proof.
  intros H0 H1. exists (cp4 b0 b1 x80 x80), [b0; b1; x80; x80], [x80; x80].
  split; [now apply encode_decoded_4 | reflexivity].
Qed.

Lemma starts_form_3_of_4 b0 b1 b2 :
  between 0xF0 (val b0) 0xF4 = true -> second_of_four b0 b1 = true ->
  is_continuation b2 = true -> starts_form [b0; b1; b2].
Proof.
  intros H0 H1 H2. exists (cp4 b0 b1 b2 x80), [b0; b1; b2; x80], [x80].
  split; [now apply encode_decoded_4 | reflexivity].
Qed.

(** An ill-formed piece [bad] in front of [rest]: one byte, or the
    start of a UTF-8 form, that the next byte does not continue. *)
Ltac bad_piece bad rest :=
  right; exists bad, rest;
  split; [reflexivity |];
  split; [simpl; lia |];
  split;
  [ first [ left; reflexivity
          | right;
            first [ now apply starts_form_2_of_3
                  | now apply starts_form_2_of_4
                  | now apply starts_form_3_of_4 ] ] |];
  split;
  [ let x := fresh "x" in let rest' := fresh "rest'" in
    let Hrest := fresh "Hrest" in
    intros x rest' Hrest;
    first [ discriminate Hrest
          | try (injection Hrest as <- <-); subst; not_a_form ] |];
  cbn [decode];
  repeat match goal with
         | H : ?c = _ |- context [if ?c then _ else _] => rewrite H
         end;
  reflexivity.

Ltac good_code_point c enc rest :=
  left; exists c, enc, rest;
  split;
  [ first [ now apply encode_decoded_1 | now apply encode_decoded_2
          | now apply encode_decoded_3 | now apply encode_decoded_4 ] |];
  split; [reflexivity |];
  split; [simpl; lia |];
  cbn [decode];
  repeat match goal with
         | H : ?c = _ |- context [if ?c then _ else _] => rewrite H
         end;
  reflexivity.

(** One step of the decoder with the [replace] handler: either the
    input starts with the UTF-8 form of a code point, which is the next
    code point of the text, or the next code point is U+FFFD and stands
    for an ill-formed piece of one to three bytes: one byte, or the
    longest start of a UTF-8 form the input begins with. *)
Lemma decode_replace_step b0 r0 :
  (exists c enc rest,
      encode_code_point c = Ok enc /\ b0 :: r0 = enc ++ rest
      /\ (List.length rest < List.length (b0 :: r0))%nat
      /\ decode Replace (b0 :: r0) = emit c (decode Replace rest))
  \/ (exists bad rest,
         b0 :: r0 = bad ++ rest /\ (1 <= List.length bad <= 3)%nat
         /\ (List.length bad = 1%nat \/ starts_form bad)
         /\ (forall x rest', rest = x :: rest' -> ~ starts_form (bad ++ [x]))
         /\ decode Replace (b0 :: r0)
            = emit REPLACEMENT_CHARACTER (decode Replace rest)).
Proof.
  destruct (val b0 <? 0x80)%N eqn:E1.
  { good_code_point (val b0) [b0] r0. }
  destruct (between 0xC2 (val b0) 0xDF) eqn:E2.
  { destruct r0 as [| b1 r1]; [bad_piece [b0] (@nil byte) |].
    destruct (is_continuation b1) eqn:C1.
    - good_code_point (cp2 b0 b1) [b0; b1] r1.
    - bad_piece [b0] (b1 :: r1). }
  destruct (between 0xE0 (val b0) 0xEF) eqn:E3.
  { destruct r0 as [| b1 r1]; [bad_piece [b0] (@nil byte) |].
    destruct (second_of_three b0 b1) eqn:C1; [| bad_piece [b0] (b1 :: r1)].
    destruct r1 as [| b2 r2]; [bad_piece [b0; b1] (@nil byte) |].
    destruct (is_continuation b2) eqn:C2.
    - good_code_point (cp3 b0 b1 b2) [b0; b1; b2] r2.
    - bad_piece [b0; b1] (b2 :: r2). }
  destruct (between 0xF0 (val b0) 0xF4) eqn:E4.
  { destruct r0 as [| b1 r1]; [bad_piece [b0] (@nil byte) |].
    destruct (second_of_four b0 b1) eqn:C1; [| bad_piece [b0] (b1 :: r1)].
    destruct r1 as [| b2 r2]; [bad_piece [b0; b1] (@nil byte) |].
    destruct (is_continuation b2) eqn:C2; [| bad_piece [b0; b1] (b2 :: r2)].
    destruct r2 as [| b3 r3]; [bad_piece [b0; b1; b2] (@nil byte) |].
    destruct (is_continuation b3) eqn:C3.
    - good_code_point (cp4 b0 b1 b2 b3) [b0; b1; b2; b3] r3.
    - bad_piece [b0; b1; b2] (b3 :: r3). }
  bad_piece [b0] r0.
Qed.

(** Where the input does not start with the UTF-8 form of any code
    point, the decoder puts U+FFFD for an ill-formed piece at its start
    and goes on behind it. *)
Lemma decode_replace_ill_formed bs :
  bs <> [] ->
  (forall c enc rest, encode_code_point c = Ok enc -> bs <> enc ++ rest) ->
  exists bad rest text,
    bs = bad ++ rest /\ (1 <= List.length bad <= 3)%nat
    /\ (List.length bad = 1%nat \/ starts_form bad)
    /\ (forall x rest', rest = x :: rest' -> ~ starts_form (bad ++ [x]))
    /\ decode Replace rest = Ok text
    /\ decode Replace bs = Ok (REPLACEMENT_CHARACTER :: text).
Proof.
  intros Hne Hno. destruct bs as [| b0 r0]; [contradiction |].
  destruct (decode_replace_step b0 r0)
    as [(c & enc & rest & He & Hs & _)
       | (bad & rest & Hs & Hl & Hp & Hm & Hd)].
  - exfalso. exact (Hno c enc rest He Hs).
  - destruct (decode_replace_total rest) as [text' Ht].
    exists bad, rest, text'. rewrite Hd, Ht. auto 10.
Qed.

(** A text without U+FFFD has lost nothing: the bytes are its UTF-8
    form. *)
Lemma decode_replace_faithful (n : nat) : forall bs text,
  (List.length bs <= n)%nat ->
  decode Replace bs = Ok text -> ~ In REPLACEMENT_CHARACTER text ->
  encode text = Ok bs.
Proof.
  induction n as [| n IH]; intros bs text Hlen Hd Hnot.
  - destruct bs; [| simpl in Hlen; lia].
    simpl in Hd. injection Hd as <-. reflexivity.
  - destruct bs as [| b0 r0].
    { simpl in Hd. injection Hd as <-. reflexivity. }
    destruct (decode_replace_step b0 r0)
      as [(c & enc & rest & He & Hs & Hlt & Hst)
         | (bad & rest & Hs & Hl & _ & _ & Hst)];
      rewrite Hst in Hd; unfold emit in Hd;
      destruct (decode Replace rest) as [text' |] eqn:Hr; try discriminate;
      cbn [bind] in Hd; injection Hd as <-.
    + rewrite Hs. cbn [encode]. rewrite He.
      rewrite (IH rest text'); [reflexivity | simpl in *; lia | exact Hr |].
      intro Hin. apply Hnot. now right.
    + exfalso. apply Hnot. now left.
Qed.

End Utf8Facts.

(** ** Safe reading *)

Section SafeReading.
Import Classifier Path Reader.

Variable os : os_calls.
Variable p : path.
Variable max_bytes : Z.

Lemma read_text_safe_too_large size :
  os_getsize os p = Ok size -> (max_bytes < size)%Z ->
  read_text_safe os p max_bytes = Ok None.
Proof.
  intros Hs Hlt. unfold read_text_safe, read_text_body. rewrite Hs.
  cbn [bind try_except]. apply Z.ltb_lt in Hlt. now rewrite Hlt.
Qed.

Lemma read_text_safe_binary data :
  os_read os p = Ok data -> is_binary_bytes (firstn 1024 data) = true ->
  read_text_safe os p max_bytes = Ok None.
Proof.
  intros Hr Hb. unfold read_text_safe, read_text_body.
  destruct (os_getsize os p) as [size | e]; cbn [bind try_except];
    [| reflexivity].
  destruct (max_bytes <? size)%Z; [reflexivity |].
  rewrite Hr. cbn [bind try_except]. now rewrite Hb.
Qed.

Lemma read_text_safe_getsize_raises e :
  os_getsize os p = Raise e -> read_text_safe os p max_bytes = Ok None.
Proof.
  intro H. unfold read_text_safe, read_text_body. now rewrite H.
Qed.

Lemma read_text_safe_read_raises e :
  os_read os p = Raise e -> read_text_safe os p max_bytes = Ok None.
Proof.
  intro H. unfold read_text_safe, read_text_body.
  destruct (os_getsize os p) as [size | e']; cbn [bind try_except];
    [| reflexivity].
  destruct (max_bytes <? size)%Z; [reflexivity |].
  now rewrite H.
Qed.

Lemma read_text_safe_text size data :
  os_getsize os p = Ok size -> (size <= max_bytes)%Z ->
  os_read os p = Ok data -> is_binary_bytes (firstn 1024 data) = false ->
  exists text, Utf8.decode Utf8.Replace data = Ok text
               /\ read_text_safe os p max_bytes = Ok (Some text).
Proof.
  intros Hs Hle Hr Hb.
  destruct (decode_replace_total data) as [text Ht].
  exists text. split; [exact Ht |].
  unfold read_text_safe, read_text_body. rewrite Hs. cbn [bind try_except].
  apply Z.ltb_ge in Hle. rewrite Hle, Hr. cbn [bind try_except].
  rewrite Hb, Ht. reflexivity.
Qed.

Lemma read_text_safe_returns :
  exists r, read_text_safe os p max_bytes = Ok r.
Proof.
  unfold read_text_safe, read_text_body.
  destruct (os_getsize os p) as [size | e]; cbn [bind try_except]; [| eauto].
  destruct (max_bytes <? size)%Z; cbn [bind try_except]; [eauto |].
  destruct (os_read os p) as [data | e]; cbn [bind try_except]; [| eauto].
  destruct (is_binary_bytes (firstn 1024 data)); cbn [bind try_except];
    [eauto |].
  destruct (decode_replace_total data) as [text ->].
  cbn [bind try_except]. eauto.
Qed.

(** The float classifier changes nothing: the sample has at most 1024
    bytes. *)
Lemma read_text_safe_f64_same :
  read_text_safe_f64 os p max_bytes = read_text_safe os p max_bytes.
Proof.
  unfold read_text_safe_f64, read_text_safe, read_text_body.
  destruct (os_getsize os p) as [size | e]; cbn [bind try_except];
    [| reflexivity].
  destruct (max_bytes <? size)%Z; [reflexivity |].
  destruct (os_read os p) as [data | e]; cbn [bind try_except];
    [| reflexivity].
  rewrite is_binary_bytes_f64_exact; [reflexivity |].
  apply firstn_le_length.
Qed.

(** C4. [read_text_safe] always returns: an exception of [getsize] or of
    the read gives [None]; a file within the limit whose sample is text
    gives [Some] of its bytes decoded with the [replace] handler, and that
    decoding returns a string for every byte sequence.  What the handler
    does: where the bytes start with the UTF-8 form of a code point the
    text has that code point; where they start with no such form the text
    has U+FFFD in the place of an ill-formed piece (one byte, or the
    longest start of a UTF-8 form the bytes begin with, at most three
    bytes) and goes on with the bytes behind it; so a text without U+FFFD
    has the bytes read as its UTF-8 form, nothing dropped. *)
Theorem read_text_safe_never_raises :
  (exists r, read_text_safe os p max_bytes = Ok r)
  /\ (forall e, os_getsize os p = Raise e ->
                read_text_safe os p max_bytes = Ok None)
  /\ (forall e, os_read os p = Raise e ->
                read_text_safe os p max_bytes = Ok None)
  /\ (forall size data,
        os_getsize os p = Ok size -> (size <= max_bytes)%Z ->
        os_read os p = Ok data ->
        is_binary_bytes (firstn 1024 data) = false ->
        exists text, Utf8.decode Utf8.Replace data = Ok text
                     /\ read_text_safe os p max_bytes = Ok (Some text))
  /\ (forall bs, exists text, Utf8.decode Utf8.Replace bs = Ok text)
  /\ (forall c enc rest text,
        Utf8.encode_code_point c = Ok enc ->
        Utf8.decode Utf8.Replace rest = Ok text ->
        Utf8.decode Utf8.Replace (enc ++ rest) = Ok (c :: text))
  /\ (forall bs,
        bs <> [] ->
        (forall c enc rest,
            Utf8.encode_code_point c = Ok enc -> bs <> enc ++ rest) ->
        exists bad rest text,
          bs = bad ++ rest /\ (1 <= List.length bad <= 3)%nat
          /\ (List.length bad = 1%nat \/ Utf8.starts_form bad)
          /\ (forall x rest',
                rest = x :: rest' -> ~ Utf8.starts_form (bad ++ [x]))
          /\ Utf8.decode Utf8.Replace rest = Ok text
          /\ Utf8.decode Utf8.Replace bs
             = Ok (Utf8.REPLACEMENT_CHARACTER :: text))
  /\ (forall bs text,
        Utf8.decode Utf8.Replace bs = Ok text ->
        ~ In Utf8.REPLACEMENT_CHARACTER text ->
        Utf8.encode text = Ok bs).
Proof.
  split; [apply read_text_safe_returns |].
  split; [apply read_text_safe_getsize_raises |].
  split; [apply read_text_safe_read_raises |].
  split; [apply read_text_safe_text |].
  split; [apply decode_replace_total |].
  split; [| split].
  - intros c enc rest text He Hr.
    rewrite (decode_encoded_code_point c enc Utf8.Replace rest He), Hr.
    reflexivity.
  - apply decode_replace_ill_formed.
  - intros bs text. apply (decode_replace_faithful (List.length bs)). lia.
Qed.

End SafeReading.

Section SafeReadingOnTrees.
Import Classifier Path FS Reader.

Lemma stat_file_os fs p a data :
  stat fs p = Ok (File a data) ->
  os_getsize (os_of fs) p = Ok (Z.of_nat (List.length data))
  /\ os_read (os_of fs) p = (if a then Ok data else Raise (OSError EACCES)).
Proof.
  intro H. unfold os_of, getsize, read_bytes. simpl. rewrite H. simpl.
  destruct a; split; reflexivity.
Qed.

(** C3. A file larger than [max_bytes], or whose first 1024 bytes
    classify as binary (so, in particular, hold a null byte), is declined
    whatever else it contains; the default limit is 2,000,000 bytes. *)
Theorem read_text_safe_declines fs p a data max_bytes :
  stat fs p = Ok (File a data) ->
  (max_bytes < Z.of_nat (List.length data))%Z
  \/ is_binary_bytes (firstn 1024 data) = true
  \/ In x00 (firstn 1024 data) ->
  read_text_safe (os_of fs) p max_bytes = Ok None
  /\ DEFAULT_MAX_BYTES = 2000000%Z.
Proof.
  intros Hstat Hcase. split; [| reflexivity].
  destruct (stat_file_os fs p a data Hstat) as [Hsize Hread].
  destruct Hcase as [Hbig | Hbin].
  - eapply read_text_safe_too_large; eassumption.
  - assert (Hb : is_binary_bytes (firstn 1024 data) = true).
    { destruct Hbin as [Hb | Hnull]; [exact Hb |].
      unfold is_binary_bytes.
      apply has_null_In in Hnull. now rewrite Hnull. }
    destruct a.
    + eapply read_text_safe_binary; eassumption.
    + eapply read_text_safe_read_raises; eassumption.
Qed.

(** C10. An empty file the process may open is read as the empty string,
    not declined, under any limit that is not negative, the default one
    included. *)
Theorem read_text_safe_empty_file fs p max_bytes :
  stat fs p = Ok (File true []) ->
  (0 <= max_bytes)%Z ->
  read_text_safe (os_of fs) p max_bytes = Ok (Some [])
  /\ read_text_safe (os_of fs) p DEFAULT_MAX_BYTES = Ok (Some []).
Proof.
  intros Hstat Hmax.
  destruct (stat_file_os fs p true [] Hstat) as [Hsize Hread].
  assert (H : forall m, (0 <= m)%Z ->
                        read_text_safe (os_of fs) p m = Ok (Some [])).
  { intros m Hm.
    destruct (read_text_safe_text (os_of fs) p m 0 [] Hsize Hm Hread eq_refl)
      as [text [Hdec Hres]].
    simpl in Hdec. injection Hdec as <-. exact Hres. }
  split; [apply H; exact Hmax | apply H; unfold DEFAULT_MAX_BYTES; lia].
Qed.

End SafeReadingOnTrees.

(** ** File names and their extensions *)

Section NameFacts.
Import Path Conditions.

Lemma chars_append s : forall t, chars (s ++ t)%string = chars s ++ chars t.
Proof.
  induction s as [| a s IH]; intro t; simpl; [reflexivity |].
  unfold chars in *. simpl. now rewrite IH.
Qed.

Lemma chars_inj s : forall t, chars s = chars t -> s = t.
Proof.
  induction s as [| a s IH]; intros [| b t] H; try discriminate;
    [reflexivity |].
  unfold chars in *. simpl in H. injection H as -> H. f_equal. now apply IH.
Qed.














Lemma only_snoc c s :
  only c s -> s = EmptyString \/ exists s', s = (s' ++ String c EmptyString)%string /\ only c s'.
Proof.
  unfold only, chars. induction s as [| a s IH]; intro H; [now left |].
  right. simpl in H. inversion H as [| ? ? Ha Hs]; subst a.
  destruct (IH Hs) as [-> | (s' & -> & Hs')].
  - exists EmptyString. split; [reflexivity | constructor].
  - exists (String c s'). split; [reflexivity |].
    simpl. now constructor.
Qed.

Lemma append_assoc s1 : forall s2 s3,
  ((s1 ++ s2) ++ s3 = s1 ++ (s2 ++ s3))%string.
Proof.
  induction s1 as [| a s1 IH]; intros; simpl; [reflexivity | now rewrite IH].
Qed.


(** Every name falls under one of the two lemmas above. *)
Lemma name_cases name :
  (exists stem e,
      name = (stem ++ "." ++ e)%string /\ ~ only "." stem /\ free_of "." e)
  \/ (exists dots e,
         name = (dots ++ e)%string /\ only "." dots /\ free_of "." e).
Proof.
  induction name as [| a s IH].
  - right. exists EmptyString, EmptyString.
    split; [reflexivity |]. split; [constructor | intros []].
  - destruct IH as [(stem & e & -> & Hs & He) | (dots & e & -> & Hd & He)].
    + left. exists (String a stem), e. split; [reflexivity |].
      split; [| exact He].
      intro H. apply Hs. unfold only, chars in *. simpl in H.
      now inversion H.
    + destruct (ascii_dec a ".") as [-> | Ha].
      * right. exists (String "." dots), e. split; [reflexivity |].
        split; [| exact He]. unfold only, chars in *. simpl. now constructor.
      * destruct (only_snoc _ _ Hd) as [-> | (d' & -> & Hd')].
        -- right. exists EmptyString, (String a e). split; [reflexivity |].
           split; [constructor |].
           unfold free_of, chars in *. simpl. intros [H | H]; [| tauto].
           now apply Ha.
        -- left. exists (String a d'), e. split.
           ++ simpl. now rewrite append_assoc.
           ++ split; [| exact He].
              intro H. unfold only, chars in H. simpl in H.
              inversion H as [| ? ? Hh _]. now apply Ha.
Qed.

End NameFacts.

(** ** Traversal *)

Section WalkerFacts.
Import Path FS Walker Conditions.

(** Induction on a filesystem tree. *)
Fixpoint node_induction (P : node -> Prop)
    (HF : forall a d, P (File a d))
    (HD : forall l es, Forall (fun e => P (snd e)) es -> P (Dir l es))
    (n : node) : P n :=
  match n with
  | File a d => HF a d
  | Dir l es =>
    HD l es
       ((fix all (es : list (string * node)) : Forall (fun e => P (snd e)) es :=
           match es with
           | [] => Forall_nil _
           | (name, c) :: es' =>
             Forall_cons (name, c) (node_induction P HF HD c) (all es')
           end) es)
  end.

Lemma lookup_In name es c : lookup name es = Some c -> In (name, c) es.
Proof.
  induction es as [| [n c'] es IH]; simpl; [discriminate |].
  destruct (String.eqb_spec n name) as [-> | Hne].
  - intros [= ->]. now left.
  - intro H. right. now apply IH.
Qed.

Lemma In_lookup name es c :
  NoDup (map fst es) -> In (name, c) es -> lookup name es = Some c.
Proof.
  induction es as [| [n c'] es IH]; simpl; [contradiction |].
  intros Hnd [Heq | Hin].
  - injection Heq as -> ->. now rewrite String.eqb_refl.
  - inversion Hnd as [| ? ? Hnotin Hnd']; subst.
    destruct (String.eqb_spec n name) as [-> | Hne].
    + exfalso. apply Hnotin. apply in_map_iff. now exists (name, c).
    + now apply IH.
Qed.

Lemma dir_names_In name es :
  In name (dir_names es) <-> exists l es', In (name, Dir l es') es.
Proof.
  unfold dir_names. rewrite in_map_iff. split.
  - intros [[n c] [Hn Hin]]. simpl in Hn. subst n.
    apply filter_In in Hin as [Hin Hd]. destruct c; [discriminate |]. eauto.
  - intros (l & es' & Hin). exists (name, Dir l es'). split; [reflexivity |].
    apply filter_In. now split.
Qed.

Lemma file_names_In name es :
  In name (file_names es) <-> exists a d, In (name, File a d) es.
Proof.
  unfold file_names. rewrite in_map_iff. split.
  - intros [[n c] [Hn Hin]]. simpl in Hn. subst n.
    apply filter_In in Hin as [Hin Hd]. destruct c; [| discriminate]. eauto.
  - intros (a & d & Hin). exists (name, File a d). split; [reflexivity |].
    apply filter_In. now split.
Qed.

Section WalkFacts.
Context {A : Type}.
Variable body : path -> list string -> list string -> list string * list A.

Lemma walk_dir top es :
  walk body top (Dir true es)
  = snd (body top (dir_names es) (file_names es))
    ++ flat_map
         (fun name =>
            match lookup name es with
            | Some c => walk body (join top name) c
            | None => []
            end)
         (fst (body top (dir_names es) (file_names es))).
Proof.
  simpl. destruct (body top (dir_names es) (file_names es)) as [dirs' out].
  simpl. f_equal. apply flat_map_ext. intro name.
  induction es as [| [n c] es IH]; [reflexivity |].
  simpl. destruct (String.eqb n name); [reflexivity | exact IH].
Qed.

Variable keep : string -> bool.
Hypothesis body_prunes :
  forall top dirs files, fst (body top dirs files) = filter keep dirs.

(** What a walk whose body filters [dirs] by [keep] yields: the
    yields of the body on every directory reached through kept names. *)
Lemma walk_spec (n : node) : forall top x,
  In x (walk body top n)
  <-> exists p es,
        reaches keep n p es
        /\ In x (snd (body (top ++ p) (dir_names es) (file_names es))).
Proof.
  induction n as [a d | l es IH] using node_induction; intros top x.
  - simpl. split; [contradiction |]. intros (p & es & Hr & _). inversion Hr.
  - destruct l.
    2:{ simpl. split; [contradiction |]. intros (p & es' & Hr & _). inversion Hr. }
    rewrite walk_dir, in_app_iff, in_flat_map, body_prunes. split.
    + intros [Hout | (name & Hname & Hx)].
      * exists [], es. rewrite app_nil_r. split; [constructor | exact Hout].
      * apply filter_In in Hname as [_ Hkeep].
        destruct (lookup name es) as [c |] eqn:Hl; [| contradiction].
        rewrite Forall_forall in IH.
        apply (IH _ (lookup_In _ _ _ Hl)) in Hx as (p & es' & Hr & Hx).
        exists (name :: p), es'. split.
        -- econstructor; eassumption.
        -- unfold join in Hx. now rewrite <- app_assoc in Hx.
    + intros (p & es' & Hr & Hx).
      inversion Hr as [es0 | es0 name c q es0' Hk Hl Hc]; subst.
      * left. now rewrite app_nil_r in Hx.
      * right. exists name. split.
        -- apply filter_In. split; [| assumption].
           apply dir_names_In. inversion Hc; subst; eauto using lookup_In.
        -- rewrite Hl. rewrite Forall_forall in IH.
           apply (IH (name, c)); [eauto using lookup_In |].
           exists q, es'. split; [assumption |].
           unfold join. now rewrite <- app_assoc.
Qed.

Lemma os_walk_spec fs top x :
  In x (os_walk body fs top)
  <-> exists n p es,
        stat fs top = Ok n /\ reaches keep n p es
        /\ In x (snd (body (top ++ p) (dir_names es) (file_names es))).
Proof.
  unfold os_walk. destruct (stat fs top) as [n | e].
  - rewrite walk_spec. split.
    + intros (p & es & H). exists n, p, es. tauto.
    + intros (n' & p & es & [= <-] & H). eauto.
  - split; [contradiction |]. intros (n & p & es & H & _). discriminate.
Qed.
End WalkFacts.

(** *** Relative paths *)

Lemma commonprefix_app base q : commonprefix base (base ++ q) = base.
Proof.
  induction base as [| c base IH]; simpl; [now destruct q |].
  now rewrite String.eqb_refl, IH.
Qed.

Lemma relpath_under base q :
  q <> [] -> relpath (base ++ q) base = Ok q.
Proof.
  intro Hq. unfold relpath. rewrite commonprefix_app, Nat.sub_diag.
  simpl repeat. rewrite skipn_app, Nat.sub_diag, skipn_all. simpl.
  destruct q; [contradiction | reflexivity].
Qed.

Lemma safe_relpath_under base p name :
  safe_relpath (join (base ++ p) name) base = p ++ [name].
Proof.
  unfold safe_relpath, join. rewrite <- app_assoc, relpath_under.
  - reflexivity.
  - now destruct p.
Qed.

(** *** Exclusion *)

Lemma mem_In x c : mem x c = true <-> In x c.
Proof.
  unfold mem. rewrite existsb_exists. split.
  - intros [y [Hin Hy]]. apply String.eqb_eq in Hy. now subst.
  - intro H. exists x. split; [assumption | apply String.eqb_refl].
Qed.

Lemma should_descend_iff d : should_descend d = true <-> ~ excluded_name d.
Proof.
  unfold should_descend, excluded_name.
  rewrite andb_true_iff, !negb_true_iff. split.
  - intros [Hm Hs] [Hin | Hdot].
    + apply mem_In in Hin. congruence.
    + congruence.
  - intro H. split.
    + destruct (mem d DEFAULT_EXCLUDE_DIRS) eqn:E; [| reflexivity].
      exfalso. apply H. left. now apply mem_In.
    + destruct (startswith "." d) eqn:E; [| reflexivity].
      exfalso. apply H. now right.
Qed.

Lemma reaches_kept keep n p es :
  reaches keep n p es -> Forall (fun d => keep d = true) p.
Proof. induction 1; constructor; assumption. Qed.

Lemma reaches_stat keep n p es :
  reaches keep n p es -> stat n p = Ok (Dir true es).
Proof.
  induction 1 as [es | es name c p es' Hk Hl Hr IH]; simpl; [reflexivity |].
  now rewrite Hl.
Qed.

Lemma stat_app fs p q :
  stat fs (p ++ q) = bind (stat fs p) (fun n => stat n q).
Proof.
  revert fs. induction p as [| c p IH]; intro fs; simpl; [reflexivity |].
  destruct fs as [a d | l es]; [reflexivity |].
  destruct (lookup c es); [apply IH | reflexivity].
Qed.

(** *** What [iter_files] yields *)

Section IterFiles.
Variable fs : node.
Variable cwd : path.
Variable base : pathname.
Variable include_exts : option (list string).

(** An entry is yielded exactly for a file that passes the filter and
    lies in a directory reached from the root through names that are
    not excluded. *)
Lemma iter_files_spec full rel :
  In (full, rel) (iter_files fs cwd base include_exts)
  <-> exists n p es name,
        stat fs (abspath cwd base) = Ok n
        /\ reaches should_descend n p es
        /\ In name (file_names es)
        /\ passes include_exts name = true
        /\ full = abspath cwd base ++ p ++ [name]
        /\ rel = p ++ [name].
Proof.
  unfold iter_files.
  rewrite (os_walk_spec _ should_descend) by reflexivity.
  split.
  - intros (n & p & es & Hs & Hr & Hin).
    simpl in Hin. apply in_flat_map in Hin as (name & Hname & Hx).
    rewrite safe_relpath_under in Hx.
    destruct (passes include_exts name) eqn:Hp; [| contradiction].
    destruct Hx as [[= <- <-] | []].
    exists n, p, es, name. unfold join. rewrite <- app_assoc. auto 10.
  - intros (n & p & es & name & Hs & Hr & Hname & Hp & -> & ->).
    exists n, p, es. split; [assumption |]. split; [assumption |].
    simpl. apply in_flat_map. exists name. split; [assumption |].
    rewrite safe_relpath_under, Hp. left.
    unfold join. now rewrite <- app_assoc.
Qed.

Lemma visited_dirs_spec dir :
  In dir (visited_dirs fs cwd base)
  <-> exists n p es,
        stat fs (abspath cwd base) = Ok n /\ reaches should_descend n p es
        /\ dir = abspath cwd base ++ p.
Proof.
  unfold visited_dirs.
  rewrite (os_walk_spec _ should_descend) by reflexivity.
  split.
  - intros (n & p & es & Hs & Hr & [<- | []]). eauto 10.
  - intros (n & p & es & Hs & Hr & ->). exists n, p, es. simpl. auto.
Qed.
End IterFiles.



(** C1. No entry [iter_files] yields has, among the directories its
    relative path passes through, one whose name is in the exclusion set
    or starts with a dot, at any depth; and the walk does not even list
    such a directory or anything below it: every directory it visits lies
    under the root along names that are not excluded. *)
Theorem iter_files_prunes_excluded
    (fs : node) (cwd : path) (base : pathname)
    (include_exts : option (list string)) :
  (forall full rel,
     In (full, rel) (iter_files fs cwd base include_exts) ->
     full = abspath cwd base ++ rel
     /\ forall d, excluded_name d -> ~ In d (removelast rel))
  /\ (forall dir,
        In dir (visited_dirs fs cwd base) ->
        exists p, dir = abspath cwd base ++ p
                  /\ forall d, excluded_name d -> ~ In d p).
Proof.
  split.
  - intros full rel Hin.
    apply iter_files_spec in Hin
      as (n & p & es & name & Hs & Hr & Hname & Hp & -> & ->).
    split; [reflexivity |].
    intros d Hex Hd. rewrite removelast_last in Hd.
    apply reaches_kept in Hr. rewrite Forall_forall in Hr.
    apply Hr in Hd. apply should_descend_iff in Hd. contradiction.
  - intros dir Hin.
    apply visited_dirs_spec in Hin as (n & p & es & Hs & Hr & ->).
    exists p. split; [reflexivity |].
    intros d Hex Hd.
    apply reaches_kept in Hr. rewrite Forall_forall in Hr.
    apply Hr in Hd. apply should_descend_iff in Hd. contradiction.
Qed.

Lemma abspath_call_ok fs cwd base :
  absolute base = true \/ (exists l es, stat fs cwd = Ok (Dir l es)) ->
  abspath_call fs cwd base = Ok (abspath cwd base).
Proof.
  unfold abspath_call, getcwd.
  intros [-> | (l & es & ->)]; [reflexivity |].
  now destruct (absolute base).
Qed.


(** A root with a NUL character in it makes [iter_files] raise
    ValueError, whatever the filesystem holds. *)
Lemma iter_files_call_nul fs cwd base include_exts :
  absolute base = true \/ (exists l es, stat fs cwd = Ok (Dir l es)) ->
  existsb has_nul (abspath cwd base) = true ->
  iter_files_call fs cwd base include_exts = Raise ValueError.
Proof.
  intros Hcwd Hnul. unfold iter_files_call.
  rewrite (abspath_call_ok _ _ _ Hcwd). cbn [bind]. now rewrite Hnul.
Qed.

(** A relative root makes [iter_files] raise FileNotFoundError once the
    working directory is gone. *)
Lemma iter_files_call_no_cwd fs cwd base include_exts :
  absolute base = false ->
  (forall l es, stat fs cwd <> Ok (Dir l es)) ->
  iter_files_call fs cwd base include_exts = Raise (OSError ENOENT).
Proof.
  intros Hrel Hno. unfold iter_files_call, abspath_call, getcwd.
  rewrite Hrel.
  destruct (stat fs cwd) as [[a d | l es] | e]; try reflexivity.
  exfalso. now apply (Hno l es).
Qed.



(** C6. Exclusion is about directories only: a file whose own name is
    in the exclusion set or starts with a dot is yielded like any other
    file of a visited directory, provided it passes the extension
    filter. *)
Theorem iter_files_keeps_excluded_file_names
    (fs : node) (cwd : path) (base : pathname)
    (include_exts : option (list string))
    (n : node) (p : list string) (es : list (string * node))
    (name : string) (a : bool) (data : list byte) :
  excluded_name name ->
  stat fs (abspath cwd base) = Ok n ->
  reaches should_descend n p es ->
  In (name, File a data) es ->
  passes include_exts name = true ->
  In (abspath cwd base ++ p ++ [name], p ++ [name])
     (iter_files fs cwd base include_exts).
Proof.
  intros _ Hs Hr Hin Hp. apply iter_files_spec.
  exists n, p, es, name. repeat split; try assumption.
  apply file_names_In. eauto.
Qed.

(** *** Independence of the listing order *)

Lemma wf_entry l es name c : wf (Dir l es) -> In (name, c) es -> wf c.
Proof.
  intros [_ Hall]. induction es as [| [n' c'] es IH]; simpl; [contradiction |].
  destruct Hall as [Hc Hall]. intros [[= _ <-] | Hin]; [exact Hc | now apply IH].
Qed.

Lemma wf_stat fs : forall p n, wf fs -> stat fs p = Ok n -> wf n.
Proof.
  intros p. revert fs. induction p as [| c p IH]; intros fs n Hwf; simpl.
  - now intros [= <-].
  - destruct fs as [a d | l es]; [discriminate |].
    destruct (lookup c es) as [c' |] eqn:Hl; [| discriminate].
    apply IH. eapply wf_entry; [exact Hwf | eapply lookup_In; exact Hl].
Qed.

Lemma wf_reaches keep n p es :
  reaches keep n p es -> wf n -> NoDup (map fst es).
Proof.
  induction 1 as [es | es name c p es' Hk Hl Hr IH]; intro Hwf.
  - exact (proj1 Hwf).
  - apply IH. eapply wf_entry; [exact Hwf | eapply lookup_In; exact Hl].
Qed.

Lemma look_cons l es name q :
  look (Dir l es) (name :: q)
  = match lookup name es with
    | Some c => look c q
    | None => None
    end.
Proof. unfold look. simpl. now destruct (lookup name es). Qed.

Lemma look_app fs p q n :
  stat fs p = Ok n -> look fs (p ++ q) = look n q.
Proof. intro H. unfold look. now rewrite stat_app, H. Qed.

Lemma look_nil_dir n1 n2 es1 :
  look n1 [] = look n2 [] -> n1 = Dir true es1 -> exists es2, n2 = Dir true es2.
Proof.
  intros H ->. unfold look in H. simpl in H.
  destruct n2 as [a d | [] es2]; try discriminate. eauto.
Qed.

(** A directory reached in one tree is reached in every tree of the
    same filesystem, and denotes the same directory there. *)
Lemma reaches_transfer keep n1 p es1 :
  reaches keep n1 p es1 ->
  forall n2, (forall q, look n1 q = look n2 q) ->
  exists es2,
    reaches keep n2 p es2
    /\ forall q, look (Dir true es1) q = look (Dir true es2) q.
Proof.
  induction 1 as [es | es name c p es' Hk Hl Hr IH]; intros n2 Hsame.
  - destruct (look_nil_dir _ n2 es (Hsame []) eq_refl) as [es2 ->].
    exists es2. split; [constructor | exact Hsame].
  - destruct (look_nil_dir _ n2 es (Hsame []) eq_refl) as [es2 ->].
    assert (Hc : exists c2, lookup name es2 = Some c2).
    { specialize (Hsame [name]). rewrite !look_cons, Hl in Hsame.
      destruct (lookup name es2) as [c2 |]; [eauto | discriminate]. }
    destruct Hc as [c2 Hl2].
    destruct (IH c2) as [es2' [Hr2 Hsame2]].
    { intro q. specialize (Hsame (name :: q)).
      now rewrite !look_cons, Hl, Hl2 in Hsame. }
    exists es2'. split; [econstructor; eassumption | exact Hsame2].
Qed.

Lemma file_names_transfer es1 es2 name :
  NoDup (map fst es1) ->
  (forall q, look (Dir true es1) q = look (Dir true es2) q) ->
  In name (file_names es1) -> In name (file_names es2).
Proof.
  intros Hnd Hsame Hin. apply file_names_In in Hin as (a & d & Hin).
  apply In_lookup in Hin; [| exact Hnd].
  specialize (Hsame [name]). rewrite !look_cons, Hin in Hsame.
  destruct (lookup name es2) as [c2 |] eqn:Hl2; [| discriminate].
  unfold look in Hsame. simpl in Hsame.
  destruct c2 as [a2 d2 | l2 es2']; [| discriminate].
  apply file_names_In. exists a2, d2. now apply lookup_In.
Qed.

Lemma iter_files_transfer fs1 fs2 cwd base include_exts entry :
  wf fs1 -> same_filesystem fs1 fs2 ->
  In entry (iter_files fs1 cwd base include_exts) ->
  In entry (iter_files fs2 cwd base include_exts).
Proof.
  intros Hwf Hsame Hin. destruct entry as [full rel].
  apply iter_files_spec in Hin
    as (n1 & p & es1 & name & Hs & Hr & Hname & Hp & -> & ->).
  assert (Hroot : exists n2, stat fs2 (abspath cwd base) = Ok n2).
  { specialize (Hsame (abspath cwd base)). unfold look in Hsame.
    rewrite Hs in Hsame.
    destruct (stat fs2 (abspath cwd base)); [eauto | discriminate]. }
  destruct Hroot as [n2 Hs2].
  destruct (reaches_transfer _ _ _ _ Hr n2) as [es2 [Hr2 Hsame2]].
  { intro q. rewrite <- (look_app fs1 _ q _ Hs), <- (look_app fs2 _ q _ Hs2).
    apply Hsame. }
  apply iter_files_spec. exists n2, p, es2, name.
  repeat split; try assumption.
  eapply file_names_transfer; [| exact Hsame2 | exact Hname].
  eapply wf_reaches; [exact Hr | eapply wf_stat; eassumption].
Qed.

(** C7. Two walks of a filesystem that has not changed yield the same
    set of relative paths, in whatever order each directory lists its
    entries at either walk. *)
Theorem iter_files_same_set
    (fs1 fs2 : node) (cwd : path) (base : pathname)
    (include_exts : option (list string)) :
  wf fs1 -> wf fs2 -> same_filesystem fs1 fs2 ->
  forall rel,
    In rel (map snd (iter_files fs1 cwd base include_exts))
    <-> In rel (map snd (iter_files fs2 cwd base include_exts)).
Proof.
  intros Hwf1 Hwf2 Hsame rel. rewrite !in_map_iff.
  split; intros [entry [Hrel Hin]]; exists entry; (split; [exact Hrel |]).
  - apply (iter_files_transfer fs1 fs2); assumption.
  - apply (iter_files_transfer fs2 fs1); [exact Hwf2 | | exact Hin].
    intro q. symmetry. apply Hsame.
Qed.

End WalkerFacts.

Section ListingOrder.
Import Path FS Walker.

Lemma lookup_perm name es1 es2 :
  NoDup (map fst es1) -> Permutation es1 es2 ->
  lookup name es1 = lookup name es2.
Proof.
  intros Hnd Hp. induction Hp as [| [n c] l l' Hp IH | [n1 c1] [n2 c2] l | l l' l'' Hp1 IH1 Hp2 IH2].
  - reflexivity.
  - simpl. destruct (String.eqb n name); [reflexivity |].
    apply IH. now inversion Hnd.
  - simpl. destruct (String.eqb_spec n1 name) as [-> | H1];
      destruct (String.eqb_spec n2 name) as [-> | H2]; try reflexivity.
    exfalso. inversion Hnd as [| ? ? Hnotin _]. apply Hnotin. now left.
  - rewrite IH1 by assumption. apply IH2.
    eapply Permutation_NoDup; [apply Permutation_map; exact Hp1 | exact Hnd].
Qed.

(** Listing a directory in another order gives a tree of the same
    filesystem. *)
Lemma same_filesystem_reorder l es1 es2 :
  NoDup (map fst es1) -> Permutation es1 es2 ->
  same_filesystem (Dir l es1) (Dir l es2).
Proof.
  intros Hnd Hp [| c q]; [reflexivity |].
  rewrite !look_cons. now rewrite (lookup_perm c es1 es2 Hnd Hp).
Qed.

(** An empty collection given as [include_exts] is no marker for "all":
    nothing passes it. *)
Lemma iter_files_empty_filter fs cwd base :
  iter_files fs cwd base (Some []) = [].
Proof.
  destruct (iter_files fs cwd base (Some [])) as [| [full rel] l] eqn:E;
    [reflexivity |].
  assert (Hin : In (full, rel) (iter_files fs cwd base (Some [])))
    by (rewrite E; now left).
  apply iter_files_spec in Hin as (n & p & es & name & _ & _ & _ & Hp & _).
  discriminate.
Qed.

End ListingOrder.

(** ** Reports *)

Section ReportFacts.
Import Path FS Report.

Lemma lookup_update name c es old :
  lookup name es = Some old -> lookup name (update name c es) = Some c.
Proof.
  induction es as [| [n c'] es IH]; simpl; [discriminate |].
  destruct (String.eqb n name) eqn:E; simpl; rewrite E; auto.
Qed.

Lemma lookup_append name c es :
  lookup name es = None -> lookup name (es ++ [(name, c)]) = Some c.
Proof.
  induction es as [| [n c'] es IH]; simpl.
  - now rewrite String.eqb_refl.
  - destruct (String.eqb n name); [discriminate | exact IH].
Qed.

(** A successful [put] leaves at the path a file with the new content,
    which the process may open. *)
Lemma stat_put p : forall fs data fs',
  put fs p data = Ok fs' -> stat fs' p = Ok (File true data).
Proof.
  induction p as [| c p IH]; intros fs data fs' H; simpl in H.
  - destruct fs as [[] d | l es]; try discriminate. injection H as <-. reflexivity.
  - destruct fs as [a d | l es]; [discriminate |].
    destruct (lookup c es) as [n |] eqn:Hl.
    + destruct (put n p data) as [n' |] eqn:Hp; [| discriminate].
      simpl in H. injection H as <-. simpl.
      rewrite (lookup_update _ _ _ _ Hl). eapply IH; exact Hp.
    + destruct p as [| c' p']; [| discriminate].
      injection H as <-. simpl. now rewrite (lookup_append _ _ _ Hl).
Qed.

Lemma write_text_stored fs p content fs' :
  write_text fs p content = Ok fs' ->
  exists data, Utf8.encode content = Ok data
               /\ stat fs' p = Ok (File true data).
Proof.
  unfold write_text. intro H.
  destruct (put fs p []) as [fs1 |]; [| discriminate]. simpl in H.
  destruct (Utf8.encode content) as [data |]; [| discriminate]. simpl in H.
  exists data. split; [reflexivity | eapply stat_put; exact H].
Qed.

(** What [write_text] wrote is read back as written, for every content:
    no character, a line ending included, is translated or lost. *)
Lemma write_text_read_back fs p content fs' :
  write_text fs p content = Ok fs' -> read_back fs' p = Ok content.
Proof.
  intro H. apply write_text_stored in H as (data & He & Hs).
  unfold read_back, read_bytes. rewrite Hs. simpl.
  now apply decode_encode.
Qed.

Lemma report_path_name fs cwd now name ext p fs1 :
  report_path fs cwd now name ext = Ok (p, fs1) ->
  p = cwd ++ ["context_out"; (name ++ "_" ++ now_stamp now ++ "." ++ ext)%string].
Proof.
  unfold report_path, ensure_out_dir. intro H.
  destruct (makedirs fs (join cwd "context_out")) as [fs' |]; [| discriminate].
  simpl in H. injection H as <- _. unfold join. now rewrite <- app_assoc.
Qed.

(** C8. After [write_text(report_path("x"), "hello")] the path returned
    by [report_path] holds the five bytes of [hello] and reads back as
    exactly that string. *)
Theorem report_round_trip fs cwd now p fs1 fs2 :
  report_path fs cwd now "x" "md" = Ok (p, fs1) ->
  write_text fs1 p (Utf8.of_string "hello") = Ok fs2 ->
  read_back fs2 p = Ok (Utf8.of_string "hello")
  /\ read_bytes fs2 p = Ok [x68; x65; x6c; x6c; x6f]
  /\ p = cwd ++ ["context_out"; ("x_" ++ now_stamp now ++ ".md")%string].
Proof.
  intros Hp Hw. split; [| split].
  - now apply write_text_read_back with (fs := fs1).
  - apply write_text_stored in Hw as (data & He & Hs).
    unfold read_bytes. rewrite Hs. simpl.
    vm_compute in He. now injection He as <-.
  - exact (report_path_name _ _ _ _ _ _ _ Hp).
Qed.

End ReportFacts.

Section ReportSucceeds.
Import Path FS Report.

Lemma update_same name n es :
  lookup name es = Some n -> update name n es = es.
Proof.
  induction es as [| [n' c] es IH]; simpl; [reflexivity |].
  destruct (String.eqb_spec n' name) as [-> | Hne].
  - now intros [= ->].
  - intro H. now rewrite IH.
Qed.

(** [makedirs] on a directory that exists changes nothing. *)
Lemma makedirs_existing q : forall fs l es,
  stat fs q = Ok (Dir l es) -> makedirs fs q = Ok fs.
Proof.
  induction q as [| c q IH]; intros fs l es H; simpl in *.
  - injection H as ->. reflexivity.
  - destruct fs as [a d | l0 es0]; [discriminate |].
    destruct (lookup c es0) as [n |] eqn:Hl; [| discriminate].
    rewrite (IH n l es H). simpl. now rewrite (update_same _ _ _ Hl).
Qed.

(** [makedirs] creates a missing last component. *)
Lemma makedirs_new q : forall fs l es c,
  stat fs q = Ok (Dir l es) -> lookup c es = None ->
  exists fs', makedirs fs (q ++ [c]) = Ok fs'
              /\ stat fs' (q ++ [c]) = Ok (Dir true []).
Proof.
  induction q as [| d q IH]; intros fs l es c H Hc; simpl in *.
  - injection H as ->. rewrite Hc. simpl. eexists. split; [reflexivity |].
    simpl. now rewrite (lookup_append _ _ _ Hc).
  - destruct fs as [a dd | l0 es0]; [discriminate |].
    destruct (lookup d es0) as [n |] eqn:Hl; [| discriminate].
    destruct (IH n l es c H Hc) as [n' [Hm Hs]].
    rewrite Hm. simpl. eexists. split; [reflexivity |].
    simpl. now rewrite (lookup_update _ _ _ _ Hl).
Qed.

(** [put] creates a file missing from an existing directory. *)
Lemma put_new q : forall fs l es c data,
  stat fs q = Ok (Dir l es) -> lookup c es = None ->
  exists fs', put fs (q ++ [c]) data = Ok fs'.
Proof.
  induction q as [| d q IH]; intros fs l es c data H Hc; simpl in *.
  - injection H as ->. rewrite Hc. eauto.
  - destruct fs as [a dd | l0 es0]; [discriminate |].
    destruct (lookup d es0) as [n |] eqn:Hl; [| discriminate].
    destruct (IH n l es c data H Hc) as [n' Hp].
    rewrite Hp. simpl. eauto.
Qed.

(** [put] replaces the content of a file the process may open. *)
Lemma put_again p : forall fs old data,
  stat fs p = Ok (File true old) -> exists fs', put fs p data = Ok fs'.
Proof.
  induction p as [| c p IH]; intros fs old data H; simpl in *.
  - injection H as ->. eauto.
  - destruct fs as [a dd | l0 es0]; [discriminate |].
    destruct (lookup c es0) as [n |] eqn:Hl; [| discriminate].
    destruct (IH n old data H) as [n' Hp]. rewrite Hp. simpl. eauto.
Qed.

Lemma write_text_new q fs l es c content data :
  stat fs q = Ok (Dir l es) -> lookup c es = None ->
  Utf8.encode content = Ok data ->
  exists fs', write_text fs (q ++ [c]) content = Ok fs'.
Proof.
  intros Hs Hc He. unfold write_text.
  destruct (put_new q fs l es c [] Hs Hc) as [fs1 Hp]. rewrite Hp. simpl.
  rewrite He. simpl.
  apply put_again with (old := []). eapply stat_put. exact Hp.
Qed.

(** In a working directory that exists and has no [context_out] yet,
    or has one without a report of that name, the report is written. *)
Lemma report_written fs cwd now name ext content data l es :
  stat fs cwd = Ok (Dir l es) ->
  lookup "context_out" es = None
  \/ (exists l' es',
        lookup "context_out" es = Some (Dir l' es')
        /\ lookup (name ++ "_" ++ now_stamp now ++ "." ++ ext)%string es' = None) ->
  Utf8.encode content = Ok data ->
  exists p fs1 fs2,
    report_path fs cwd now name ext = Ok (p, fs1)
    /\ write_text fs1 p content = Ok fs2.
Proof.
  intros Hs Hout He. unfold report_path, ensure_out_dir, join.
  destruct Hout as [Hnone | (l' & es' & Hsome & Hfree)].
  - destruct (makedirs_new cwd fs l es "context_out" Hs Hnone) as [fs1 [Hm Hs1]].
    rewrite Hm. simpl.
    destruct (write_text_new _ fs1 true []
                (name ++ "_" ++ now_stamp now ++ "." ++ ext)%string
                content data Hs1 eq_refl He) as [fs2 Hw].
    eauto.
  - assert (Hs1 : stat fs (cwd ++ ["context_out"]) = Ok (Dir l' es')).
    { rewrite stat_app, Hs. simpl. now rewrite Hsome. }
    rewrite (makedirs_existing _ fs l' es' Hs1). simpl.
    destruct (write_text_new _ fs l' es' _ content data Hs1 Hfree He)
      as [fs2 Hw].
    eauto.
Qed.

End ReportSucceeds.

(** ** The properties at work on the sample filesystems *)

Section Witnesses.
Import Classifier Path FS Reader Walker Report Conditions.

(** The traversal of the sample tree from [/home/u]. *)
Example iter_files_sample :
  map snd (iter_files Sample.tree Sample.cwd Sample.here None)
  = [["a.py"]; ["b.bin"]; ["empty.txt"]; [".gitignore"];
     ["src"; "X.PY"]; ["src"; "node_modules"]].
Proof. reflexivity. Qed.

Example iter_files_sample_py :
  map snd (iter_files Sample.tree Sample.cwd Sample.here (Some [".py"]))
  = [["a.py"]; ["src"; "X.PY"]].
Proof. reflexivity. Qed.

Example read_text_safe_sample :
  map (fun name =>
         read_text_safe (os_of Sample.tree) (Sample.cwd ++ [name])
                        DEFAULT_MAX_BYTES)
      ["a.py"; "b.bin"; "missing"; "src"]
  = [Ok (Some [104; 105; 10]%N); Ok None; Ok None; Ok None].
Proof. reflexivity. Qed.

(** An ill-formed byte and a sequence cut short each give one U+FFFD;
    the bytes around them are kept. *)
Example decode_replace_sample :
  Utf8.decode Utf8.Replace [x61; xff; x62; xc3]
  = Ok [0x61; Utf8.REPLACEMENT_CHARACTER; 0x62; Utf8.REPLACEMENT_CHARACTER]%N
  /\ Utf8.decode Utf8.Strict [x61; xff; x62; xc3] = Raise UnicodeDecodeError.
Proof. split; reflexivity. Qed.

Lemma read_text_safe_declines_witness :
  read_text_safe (os_of Sample.tree) ["home"; "u"; "b.bin"] 2000000 = Ok None
  /\ DEFAULT_MAX_BYTES = 2000000%Z.
Proof.
  apply (read_text_safe_declines Sample.tree ["home"; "u"; "b.bin"] true
                                 [x00; x01; x02] 2000000).
  - reflexivity.
  - right. right. simpl. auto.
Defined.

Lemma read_text_safe_empty_file_witness :
  read_text_safe (os_of Sample.tree) ["home"; "u"; "empty.txt"] 0
  = Ok (Some [])
  /\ read_text_safe (os_of Sample.tree) ["home"; "u"; "empty.txt"]
                    DEFAULT_MAX_BYTES
     = Ok (Some []).
Proof.
  apply (read_text_safe_empty_file Sample.tree ["home"; "u"; "empty.txt"] 0).
  - reflexivity.
  - lia.
Defined.


Lemma iter_files_keeps_excluded_file_names_witness :
  In (abspath Sample.cwd Sample.here ++ [] ++ [".gitignore"],
      [] ++ [".gitignore"])
     (iter_files Sample.tree Sample.cwd Sample.here None)
  /\ In (abspath Sample.cwd Sample.here ++ ["src"] ++ ["node_modules"],
         ["src"] ++ ["node_modules"])
        (iter_files Sample.tree Sample.cwd Sample.here (Some [""; ".py"])).
Proof.
  split.
  - eapply (iter_files_keeps_excluded_file_names Sample.tree Sample.cwd
              Sample.here None _ [] _ ".gitignore" true [x2a; x0a]).
    + right. reflexivity.
    + vm_compute. reflexivity.
    + apply reaches_here.
    + simpl. auto.
    + reflexivity.
  - eapply (iter_files_keeps_excluded_file_names Sample.tree Sample.cwd
              Sample.here (Some [""; ".py"]) _ ["src"] _ "node_modules"
              true [x6e]).
    + left. simpl. auto.
    + vm_compute. reflexivity.
    + eapply reaches_down; [reflexivity | reflexivity | apply reaches_here].
    + simpl. auto.
    + reflexivity.
Defined.

Lemma listing_1_wf : wf Sample.listing_1.
Proof.
  simpl. repeat split.
  repeat constructor; simpl; intuition discriminate.
Defined.

Lemma listing_2_wf : wf Sample.listing_2.
Proof.
  simpl. repeat split.
  repeat constructor; simpl; intuition discriminate.
Defined.

Lemma iter_files_same_set_witness :
  In ["a.py"] (map snd (iter_files Sample.listing_1 [] Sample.root_dir None))
  <-> In ["a.py"] (map snd (iter_files Sample.listing_2 [] Sample.root_dir None)).
Proof.
  apply (iter_files_same_set Sample.listing_1 Sample.listing_2 []
                             Sample.root_dir None).
  - exact listing_1_wf.
  - exact listing_2_wf.
  - apply same_filesystem_reorder.
    + exact (proj1 listing_1_wf).
    + apply perm_swap.
Defined.

(** The two listings do yield their entries in different orders. *)
Example listing_orders_differ :
  map snd (iter_files Sample.listing_1 [] Sample.root_dir None)
  = [["a.py"]; ["b.py"]]
  /\ map snd (iter_files Sample.listing_2 [] Sample.root_dir None)
     = [["b.py"]; ["a.py"]].
Proof. split; reflexivity. Qed.



Lemma report_round_trip_witness :
  exists p fs1 fs2,
    report_path Sample.tree Sample.cwd Sample.noon "x" "md" = Ok (p, fs1)
    /\ write_text fs1 p (Utf8.of_string "hello") = Ok fs2
    /\ read_back fs2 p = Ok (Utf8.of_string "hello")
    /\ read_bytes fs2 p = Ok [x68; x65; x6c; x6c; x6f]
    /\ p = Sample.cwd
           ++ ["context_out"; ("x_" ++ now_stamp Sample.noon ++ ".md")%string].
Proof.
  eexists. eexists. eexists.
  split; [vm_compute; reflexivity |].
  split; [vm_compute; reflexivity |].
  eapply (report_round_trip Sample.tree Sample.cwd Sample.noon).
  - vm_compute. reflexivity.
  - vm_compute. reflexivity.
Defined.

End Witnesses.

(** * Further properties *)

Section MoreReading.
Import Classifier Path FS Reader Report.

Lemma read_text_safe_inv os p max_bytes text :
  read_text_safe os p max_bytes = Ok (Some text) ->
  exists size data,
    os_getsize os p = Ok size /\ (size <= max_bytes)%Z
    /\ os_read os p = Ok data
    /\ is_binary_bytes (firstn 1024 data) = false
    /\ Utf8.decode Utf8.Replace data = Ok text.
Proof.
  unfold read_text_safe, read_text_body.
  destruct (os_getsize os p) as [size | e]; cbn [bind try_except];
    [| discriminate].
  destruct (Z.ltb_spec max_bytes size) as [Hlt | Hle];
    cbn [bind try_except]; [discriminate |].
  destruct (os_read os p) as [data | e]; cbn [bind try_except];
    [| discriminate].
  destruct (is_binary_bytes (firstn 1024 data)) eqn:Hb;
    cbn [bind try_except]; [discriminate |].
  destruct (Utf8.decode Utf8.Replace data) as [t | e] eqn:Hd;
    cbn [bind try_except]; [| discriminate].
  intros [= <-]. exists size, data. auto.
Qed.

(** X1. When [read_text_safe] returns a text, the size reported for the
    file was within the limit, the first 1024 bytes read did not classify
    as binary, and the text is the whole content decoded, not a part of
    it. *)
Theorem read_text_safe_some os p max_bytes text :
  read_text_safe os p max_bytes = Ok (Some text) ->
  exists size data,
    os_getsize os p = Ok size /\ (size <= max_bytes)%Z
    /\ os_read os p = Ok data
    /\ is_binary_bytes (firstn 1024 data) = false
    /\ Utf8.decode Utf8.Replace data = Ok text.
Proof. apply read_text_safe_inv. Qed.

(** X2. Only the first 1024 bytes are classified: a file whose first
    1024 bytes are text is read in full whatever follows them, null bytes
    included. *)
Theorem read_text_safe_ignores_tail fs p head tail max_bytes :
  stat fs p = Ok (File true (head ++ tail)) ->
  List.length head = 1024%nat ->
  is_binary_bytes head = false ->
  (Z.of_nat (List.length (head ++ tail)) <= max_bytes)%Z ->
  exists text,
    Utf8.decode Utf8.Replace (head ++ tail) = Ok text
    /\ read_text_safe (os_of fs) p max_bytes = Ok (Some text).
Proof.
  intros Hs Hlen Hb Hmax.
  destruct (stat_file_os fs p true (head ++ tail) Hs) as [Hsize Hread].
  eapply read_text_safe_text; try eassumption.
  rewrite firstn_app, <- Hlen, Nat.sub_diag, firstn_all. simpl.
  now rewrite app_nil_r.
Qed.

(** X4. What [write_text] stored, [read_text_safe] returns unchanged,
    provided the encoded content passes the classifier and the size
    limit. *)
Theorem write_text_read_text_safe fs p content fs' data max_bytes :
  write_text fs p content = Ok fs' ->
  Utf8.encode content = Ok data ->
  is_binary_bytes (firstn 1024 data) = false ->
  (Z.of_nat (List.length data) <= max_bytes)%Z ->
  read_text_safe (os_of fs') p max_bytes = Ok (Some content).
Proof.
  intros Hw He Hb Hmax.
  apply write_text_stored in Hw as (data' & He' & Hs).
  rewrite He in He'. injection He' as <-.
  destruct (stat_file_os fs' p true data Hs) as [Hsize Hread].
  destruct (read_text_safe_text (os_of fs') p max_bytes _ data Hsize Hmax Hread Hb)
    as [text [Hd Hr]].
  rewrite (decode_encode Utf8.Replace content data He) in Hd.
  now injection Hd as <-.
Qed.

Lemma makedirs_stat p : forall fs fs',
  makedirs fs p = Ok fs' -> exists l es, stat fs' p = Ok (Dir l es).
Proof.
  induction p as [| c p IH]; intros fs fs' H; simpl in H.
  - destruct fs as [a d | l es]; [discriminate |]. injection H as <-.
    simpl. eauto.
  - destruct fs as [a d | l es]; [discriminate |].
    destruct (lookup c es) as [n |] eqn:Hl.
    + destruct (makedirs n p) as [n' |] eqn:Hm; [| discriminate].
      simpl in H. injection H as <-. simpl.
      rewrite (lookup_update _ _ _ _ Hl). eapply IH. exact Hm.
    + destruct (makedirs (Dir true []) p) as [n' |] eqn:Hm; [| discriminate].
      simpl in H. injection H as <-. simpl.
      rewrite (lookup_append _ _ _ Hl). eapply IH. exact Hm.
Qed.

(** X5. After a successful [ensure_out_dir] the directory
    [context_out] exists under the working directory, and calling it
    again returns the same path and changes nothing. *)
Theorem ensure_out_dir_idempotent fs cwd out_dir fs' :
  ensure_out_dir fs cwd = Ok (out_dir, fs') ->
  out_dir = cwd ++ ["context_out"]
  /\ (exists l es, stat fs' out_dir = Ok (Dir l es))
  /\ ensure_out_dir fs' cwd = Ok (out_dir, fs').
Proof.
  unfold ensure_out_dir, join. intro H.
  destruct (makedirs fs (cwd ++ ["context_out"])) as [fs1 |] eqn:Hm;
    [| discriminate].
  simpl in H. injection H as <- <-.
  destruct (makedirs_stat _ _ _ Hm) as (l & es & Hs).
  split; [reflexivity |]. split; [eauto |].
  now rewrite (makedirs_existing _ _ _ _ Hs).
Qed.

End MoreReading.

Section MoreClassifier.
Import Classifier.

Lemma translate_delete_allowed sample :
  Forall allowed_byte sample -> translate_delete sample = [].
Proof.
  intro H. rewrite translate_delete_outside.
  induction H as [| b l Hb _ IH]; [reflexivity |].
  simpl. apply allowed_byteb_spec in Hb. now rewrite Hb.
Qed.

Lemma allowed_not_null b : allowed_byte b -> b <> x00.
Proof.
  intros H ->. apply allowed_byteb_spec in H. discriminate.
Qed.

(** X8. A sample made only of bytes of the allowed set, every byte from
    0x80 up among them, is never classified as binary. *)
Theorem is_binary_bytes_allowed sample :
  Forall allowed_byte sample -> is_binary_bytes sample = false.
Proof.
  intro H. rewrite is_binary_bytes_cross, (translate_delete_allowed _ H).
  simpl List.length. rewrite Nat.mul_0_r.
  replace (3 * List.length sample <? 0)%nat with false
    by (symmetry; apply Nat.ltb_ge; lia).
  rewrite orb_false_r.
  destruct (has_null sample) eqn:E; [| reflexivity].
  apply has_null_In in E. rewrite Forall_forall in H.
  exfalso. exact (allowed_not_null _ (H _ E) eq_refl).
Qed.

Lemma has_null_perm s1 s2 : Permutation s1 s2 -> has_null s1 = has_null s2.
Proof.
  intro P. destruct (has_null s1) eqn:E1; destruct (has_null s2) eqn:E2;
    try reflexivity.
  - apply has_null_In in E1. apply (Permutation_in _ P) in E1.
    apply has_null_In in E1. congruence.
  - apply has_null_In in E2. apply (Permutation_in _ (Permutation_sym P)) in E2.
    apply has_null_In in E2. congruence.
Qed.

Lemma filter_perm {A} (f : A -> bool) l1 l2 :
  Permutation l1 l2 -> Permutation (filter f l1) (filter f l2).
Proof.
  induction 1 as [| x l l' _ IH | x y l | l l' l'' _ IH1 _ IH2]; simpl.
  - constructor.
  - destruct (f x); [now constructor | exact IH].
  - destruct (f x), (f y); try apply Permutation_refl. apply perm_swap.
  - eapply Permutation_trans; eassumption.
Qed.

(** X9. The verdict of [is_binary_bytes] depends on which bytes the
    sample holds, not on their order. *)
Theorem is_binary_bytes_perm s1 s2 :
  Permutation s1 s2 -> is_binary_bytes s1 = is_binary_bytes s2.
Proof.
  intro P. rewrite !is_binary_bytes_cross.
  rewrite (has_null_perm _ _ P), (Permutation_length P).
  unfold translate_delete.
  now rewrite (Permutation_length (filter_perm _ _ _ P)).
Qed.

End MoreClassifier.

Section Stamps.
Import Path FS Report Conditions.

Ltac ndiv := zify; Z.to_euclidean_division_equations; lia.

Lemma digit_inj n m : digit n = digit m -> (n mod 10 = m mod 10)%nat.
Proof.
  unfold digit. intro H.
  apply (f_equal nat_of_ascii) in H.
  rewrite !nat_ascii_embedding in H by ndiv. lia.
Qed.

Lemma append_inv_head s : forall t1 t2, (s ++ t1 = s ++ t2)%string -> t1 = t2.
Proof.
  induction s as [| a s IH]; simpl; intros t1 t2 H; [exact H |].
  injection H as H. now apply IH.
Qed.

Lemma append_inv_tail s1 : forall s2 t1 t2,
  String.length s1 = String.length s2 ->
  (s1 ++ t1 = s2 ++ t2)%string -> s1 = s2.
Proof.
  induction s1 as [| a s1 IH]; intros [| b s2] t1 t2 Hlen H;
    simpl in *; try discriminate; [reflexivity |].
  injection H as -> H. f_equal. eapply IH; [lia | exact H].
Qed.

Lemma now_stamp_length now : String.length (now_stamp now) = 17%nat.
Proof. reflexivity. Qed.

Lemma two_digits_inj n m :
  (n < 100)%nat -> (m < 100)%nat ->
  digit (n / 10) = digit (m / 10) -> digit n = digit m -> n = m.
Proof.
  intros Hn Hm Ha Hb. apply digit_inj in Ha, Hb. ndiv.
Qed.

Lemma four_digits_inj n m :
  (Z.of_nat n < 10000)%Z -> (Z.of_nat m < 10000)%Z ->
  four_digits n = four_digits m -> n = m.
Proof.
  intros Hn Hm H. unfold four_digits, two_digits in H.
  remember (n / 1000)%nat as an. remember (m / 1000)%nat as am.
  remember (n / 100)%nat as bn. remember (m / 100)%nat as bm.
  remember (n / 10)%nat as cn. remember (m / 10)%nat as cm.
  injection H as Ha Hb Hc Hd.
  apply digit_inj in Ha, Hb, Hc, Hd. subst. ndiv.
Qed.

Lemma now_stamp_inj t1 t2 :
  in_columns t1 -> in_columns t2 -> now_stamp t1 = now_stamp t2 -> t1 = t2.
Proof.
  destruct t1 as [y1 mo1 d1 h1 mi1 s1], t2 as [y2 mo2 d2 h2 mi2 s2].
  unfold in_columns. cbn [year month day hour minute second].
  intros (Hy1 & Hmo1 & Hd1 & Hh1 & Hmi1 & Hs1)
         (Hy2 & Hmo2 & Hd2 & Hh2 & Hmi2 & Hs2) H.
  unfold now_stamp in H. cbn [year month day hour minute second] in H.
  assert (L4 : String.length (four_digits y1) = String.length (four_digits y2))
    by reflexivity.
  pose proof (append_inv_tail _ _ _ _ L4 H) as Ey.
  rewrite Ey in H. apply append_inv_head in H.
  apply four_digits_inj in Ey; [| assumption | assumption].
  injection H as Ha Hb Hc Hd He Hf Hg Hh Hi Hj.
  f_equal; try assumption; apply two_digits_inj; assumption.
Qed.

(** X6. Two reports of the same kind get the same path exactly when
    they are stamped with the same date and time, to the second. *)
Theorem report_path_distinct fs cwd name ext t1 t2 p1 p2 fs1 fs2 :
  in_columns t1 -> in_columns t2 ->
  report_path fs cwd t1 name ext = Ok (p1, fs1) ->
  report_path fs cwd t2 name ext = Ok (p2, fs2) ->
  (p1 = p2 <-> t1 = t2).
Proof.
  intros H1 H2 R1 R2.
  pose proof (report_path_name _ _ _ _ _ _ _ R1) as E1.
  pose proof (report_path_name _ _ _ _ _ _ _ R2) as E2.
  split.
  - intro Hp. subst p1 p2. apply app_inv_head in Hp.
    apply now_stamp_inj; try assumption.
    apply (append_inv_tail (now_stamp t1) (now_stamp t2)
                           ("." ++ ext) ("." ++ ext)); [reflexivity |].
    apply (append_inv_head "_"). apply (append_inv_head name).
    now injection Hp.
  - intros ->. congruence.
Qed.

End Stamps.

Section RelativePaths.
Import Path Conditions.

Lemma normpath_loop_plain l : forall acc rest,
  Forall plain l ->
  normpath_loop acc (l ++ rest) = normpath_loop (rev l ++ acc) rest.
Proof.
  induction l as [| c l IH]; intros acc rest H; [reflexivity |].
  inversion H as [| ? ? (H1 & H2 & H3) Hl]; subst. simpl.
  apply String.eqb_neq in H1, H2, H3. rewrite H1, H2, H3. simpl.
  rewrite IH by assumption. now rewrite <- app_assoc.
Qed.

Lemma normpath_loop_pardirs st : forall acc rest,
  normpath_loop (st ++ acc) (repeat pardir (List.length st) ++ rest)
  = normpath_loop acc rest.
Proof.
  induction st as [| x st IH]; intros acc rest; [reflexivity |].
  simpl. apply IH.
Qed.

Lemma commonprefix_split a : forall b,
  exists a' b',
    a = commonprefix a b ++ a' /\ b = commonprefix a b ++ b'.
Proof.
  induction a as [| x a IH]; intros b.
  - exists [], b. auto.
  - destruct b as [| y b]; [exists (x :: a), []; auto |].
    simpl. destruct (String.eqb_spec x y) as [-> | Hne].
    + destruct (IH b) as (a' & b' & Ha & Hb).
      exists a', b'. simpl. split; congruence.
    + exists (x :: a), (y :: b). auto.
Qed.

(** X7. Joining [safe_relpath(p, base)] back onto [base] and
    normalising gives [p], also when [p] is not under [base] and the
    result climbs with [..], or equals [base] and the result is [.]. *)
Theorem safe_relpath_round_trip p base :
  Forall plain p -> Forall plain base ->
  normpath_loop [] (base ++ safe_relpath p base) = p.
Proof.
  intros Hp Hb. unfold safe_relpath, relpath.
  destruct (commonprefix_split base p) as (s' & p' & Hs & Hp').
  set (cp := commonprefix base p) in *.
  assert (Hlen : (List.length base - List.length cp = List.length s')%nat).
  { rewrite Hs at 1. rewrite length_app. lia. }
  assert (Hskip : skipn (List.length cp) p = p').
  { rewrite Hp' at 1. rewrite skipn_app, Nat.sub_diag, skipn_all. reflexivity. }
  rewrite Hlen, Hskip.
  assert (Hcp : Forall plain cp /\ Forall plain s' /\ Forall plain p').
  { rewrite Hs in Hb. rewrite Hp' in Hp.
    apply Forall_app in Hb, Hp. tauto. }
  destruct Hcp as (Hcp & Hs' & Hpp).
  assert (Hgo : normpath_loop [] (base ++ repeat pardir (List.length s') ++ p') = p).
  { rewrite Hs at 1. rewrite <- app_assoc.
    rewrite normpath_loop_plain by assumption. rewrite app_nil_r.
    rewrite normpath_loop_plain by assumption.
    rewrite <- (length_rev s'), normpath_loop_pardirs.
    rewrite <- (app_nil_r p') at 1.
    rewrite normpath_loop_plain by assumption. simpl.
    rewrite rev_app_distr, !rev_involutive. now rewrite <- Hp'. }
  destruct (repeat pardir (List.length s') ++ p') as [| c r] eqn:E;
    [| exact Hgo].
  rewrite <- Hgo.
  rewrite !normpath_loop_plain by assumption. reflexivity.
Qed.

End RelativePaths.

Section MoreWalking.
Import Path FS Walker Reader.

(** The full paths of the entries a walk yields lie strictly below the
    directory the walk starts in. *)
Lemma walk_below base ie n : forall top x,
  In x (walk (iter_files_body base ie) top n) ->
  exists q name, fst x = top ++ q ++ [name].
Proof.
  intros top x Hin.
  apply (walk_spec _ should_descend) in Hin; [| reflexivity].
  destruct Hin as (p & es & _ & Hin). simpl in Hin.
  apply in_flat_map in Hin as (name & _ & Hx).
  destruct (passes ie name); [| contradiction].
  destruct Hx as [<- | []]. simpl. unfold join.
  exists p, name. now rewrite <- app_assoc.
Qed.

Lemma NoDup_map_filter {A B} (f : A -> B) (g : A -> bool) l :
  NoDup (map f l) -> NoDup (map f (filter g l)).
Proof.
  induction l as [| x l IH]; simpl; intro H; [constructor |].
  inversion H as [| ? ? Hnotin Hnd]; subst.
  destruct (g x); [| now apply IH].
  simpl. constructor; [| now apply IH].
  intro Hin. apply Hnotin. apply in_map_iff in Hin as (y & Hy & Hin).
  apply filter_In in Hin as [Hin _]. apply in_map_iff. eauto.
Qed.

Lemma NoDup_flat_map {A B} (f : A -> list B) l :
  NoDup l ->
  (forall x, In x l -> NoDup (f x)) ->
  (forall x y b, In x l -> In y l -> In b (f x) -> In b (f y) -> x = y) ->
  NoDup (flat_map f l).
Proof.
  induction l as [| a l IH]; simpl; intros Hnd Hf Hdisj; [constructor |].
  inversion Hnd as [| ? ? Hnotin Hnd']; subst.
  apply NoDup_app.
  - apply Hf. now left.
  - apply IH; auto.
    intros x y b Hx Hy. apply Hdisj; now right.
  - intros b Hb1 Hb2. apply in_flat_map in Hb2 as (y & Hy & Hb2).
    assert (a = y) by (apply (Hdisj a y b); auto).
    subst. contradiction.
Qed.

Lemma NoDup_map_inj {A B} (f : A -> B) l :
  (forall x y, In x l -> In y l -> f x = f y -> x = y) ->
  NoDup l -> NoDup (map f l).
Proof.
  intros Hinj H. induction H as [| a l Hnotin Hnd IH]; simpl; constructor.
  - intro Hin. apply in_map_iff in Hin as (y & Hy & Hin).
    assert (y = a) by (apply Hinj; [now right | now left | exact Hy]).
    subst. contradiction.
  - apply IH. intros x y Hx Hy. apply Hinj; now right.
Qed.

Lemma walk_NoDup base ie n : forall top,
  wf n -> NoDup (walk (iter_files_body base ie) top n).
Proof.
  induction n as [a d | l es IH] using node_induction; intros top Hwf.
  - simpl. constructor.
  - destruct l; [| simpl; constructor].
    rewrite walk_dir. rewrite Forall_forall in IH.
    pose proof (proj1 Hwf) as Hnd.
    apply NoDup_app.
    + (* the files of this directory *)
      simpl. apply NoDup_flat_map.
      * unfold file_names. now apply NoDup_map_filter.
      * intros name _. destruct (passes ie name); repeat constructor.
        intros [].
      * intros x y b _ _ Hx Hy.
        destruct (passes ie x); [| contradiction].
        destruct (passes ie y); [| contradiction].
        destruct Hx as [<- | []]. destruct Hy as [Hy | []].
        injection Hy as Hy _. unfold join in Hy.
        apply app_inj_tail in Hy. symmetry. tauto.
    + (* the walks of the directories below *)
      simpl fst. apply NoDup_flat_map.
      * apply NoDup_filter. unfold dir_names. now apply NoDup_map_filter.
      * intros name _. destruct (lookup name es) as [c |] eqn:Hl;
          [| constructor].
        apply (IH (name, c)); [eauto using lookup_In |].
        eapply wf_entry; [exact Hwf | eapply lookup_In; exact Hl].
      * intros x y b _ _ Hx Hy.
        destruct (lookup x es) as [cx |]; [| contradiction].
        destruct (lookup y es) as [cy |]; [| contradiction].
        apply walk_below in Hx as (q1 & n1 & H1).
        apply walk_below in Hy as (q2 & n2 & H2).
        rewrite H1 in H2. unfold join in H2. rewrite <- !app_assoc in H2.
        apply app_inv_head in H2. now injection H2.
    + intros b Hb1 Hb2. simpl in Hb1.
      apply in_flat_map in Hb1 as (name & _ & Hb1).
      destruct (passes ie name); [| contradiction].
      destruct Hb1 as [<- | []].
      apply in_flat_map in Hb2 as (x & _ & Hb2).
      destruct (lookup x es) as [cx |]; [| contradiction].
      apply walk_below in Hb2 as (q & nm & H). simpl in H.
      unfold join in H. rewrite <- app_assoc in H.
      apply app_inv_head in H. simpl in H. injection H as _ H.
      destruct q; discriminate.
Qed.

(** X11. In a filesystem with unique names [iter_files] yields no entry
    twice, and no two entries share a full path or a relative path. *)
Theorem iter_files_NoDup fs cwd base include_exts :
  wf fs ->
  NoDup (iter_files fs cwd base include_exts)
  /\ NoDup (map fst (iter_files fs cwd base include_exts))
  /\ NoDup (map snd (iter_files fs cwd base include_exts)).
Proof.
  intro Hwf.
  assert (H : NoDup (iter_files fs cwd base include_exts)).
  { unfold iter_files, os_walk.
    destruct (stat fs (abspath cwd base)) as [n | e] eqn:Hs; [| constructor].
    apply walk_NoDup. eapply wf_stat; eassumption. }
  assert (Hfull : forall e, In e (iter_files fs cwd base include_exts) ->
                            fst e = abspath cwd base ++ snd e).
  { intros [full rel] Hin.
    apply iter_files_spec in Hin as (n & p & es & name & _ & _ & _ & _ & -> & ->).
    reflexivity. }
  split; [exact H |]. split.
  - apply NoDup_map_inj; [| exact H].
    intros [f1 r1] [f2 r2] H1 H2 Heq. simpl in Heq. subst f2.
    apply Hfull in H1, H2. simpl in H1, H2. rewrite H1 in H2.
    apply app_inv_head in H2. now subst.
  - apply NoDup_map_inj; [| exact H].
    intros [f1 r1] [f2 r2] H1 H2 Heq. simpl in Heq. subst r2.
    apply Hfull in H1, H2. simpl in H1, H2. congruence.
Qed.

End MoreWalking.

Section SortedFacts.
Import Commands.
Context {A : Type}.
Variable le : A -> A -> bool.

Lemma insert_perm x l : Permutation (insert le x l) (x :: l).
Proof.
  induction l as [| y l IH]; simpl; [apply Permutation_refl |].
  destruct (le x y); [apply Permutation_refl |].
  eapply Permutation_trans; [apply perm_skip; exact IH | apply perm_swap].
Qed.

Lemma sorted_perm l : Permutation (sorted le l) l.
Proof.
  induction l as [| x l IH]; simpl; [constructor |].
  eapply Permutation_trans; [apply insert_perm | now apply perm_skip].
Qed.

Lemma sorted_length l : List.length (sorted le l) = List.length l.
Proof. apply Permutation_length, sorted_perm. Qed.

Lemma sorted_In x l : In x (sorted le l) <-> In x l.
Proof.
  split; apply Permutation_in;
    [apply sorted_perm | apply Permutation_sym, sorted_perm].
Qed.

Hypothesis le_total : forall x y, le x y = true \/ le y x = true.
Hypothesis le_trans : forall x y z, le x y = true -> le y z = true -> le x z = true.

Lemma insert_sorted x l :
  StronglySorted (fun a b => le a b = true) l ->
  StronglySorted (fun a b => le a b = true) (insert le x l).
Proof.
  induction 1 as [| y l Hs IH Hy]; simpl.
  - constructor; constructor.
  - destruct (le x y) eqn:E.
    + constructor; [now constructor |].
      constructor; [exact E |].
      rewrite Forall_forall in *. intros z Hz. eapply le_trans; eauto.
    + constructor; [exact IH |].
      rewrite Forall_forall in *. intros z Hz.
      apply (Permutation_in _ (insert_perm x l)) in Hz.
      destruct Hz as [<- | Hz]; [| now apply Hy].
      destruct (le_total x y) as [H | H]; congruence.
Qed.

Lemma sorted_sorted l :
  StronglySorted (fun a b => le a b = true) (sorted le l).
Proof.
  induction l as [| x l IH]; simpl; [constructor | now apply insert_sorted].
Qed.

End SortedFacts.

Section DictFacts.
Import Commands.

Lemma dict_add_total k v d : total (dict_add k v d) = (total d + v)%Z.
Proof.
  unfold total. induction d as [| [k' v'] d IH]; simpl; [lia |].
  destruct (String.eqb k' k); simpl; lia.
Qed.

Lemma dict_add_keys k v d x :
  In x (map fst (dict_add k v d)) <-> x = k \/ In x (map fst d).
Proof.
  induction d as [| [k' v'] d IH]; simpl; [intuition |].
  destruct (String.eqb_spec k' k) as [-> | Hne]; simpl.
  - intuition.
  - rewrite IH. intuition.
Qed.

Lemma dict_add_NoDup k v d :
  NoDup (map fst d) -> NoDup (map fst (dict_add k v d)).
Proof.
  induction d as [| [k' v'] d IH]; simpl; intro H.
  - repeat constructor. intros [].
  - inversion H as [| ? ? Hnotin Hnd]; subst.
    destruct (String.eqb_spec k' k) as [-> | Hne]; simpl.
    + now constructor.
    + constructor; [| now apply IH].
      rewrite dict_add_keys. intros [-> | Hin]; [now apply Hne | contradiction].
Qed.

Lemma total_perm d1 d2 : Permutation d1 d2 -> total d1 = total d2.
Proof.
  unfold total. induction 1; simpl; lia.
Qed.

Lemma dict_get_add k k' v d :
  dict_get k (dict_add k' v d)
  = (dict_get k d + (if String.eqb k' k then v else 0))%Z.
Proof.
  induction d as [| [k0 v0] d IH]; simpl.
  - destruct (String.eqb k' k); lia.
  - destruct (String.eqb_spec k0 k') as [-> | Hne]; simpl.
    + destruct (String.eqb k' k); lia.
    + destruct (String.eqb_spec k0 k) as [-> | Hne'].
      * destruct (String.eqb_spec k' k) as [-> | _]; [congruence | lia].
      * exact IH.
Qed.

Lemma In_dict_get k n d :
  NoDup (map fst d) -> In (k, n) d -> dict_get k d = n.
Proof.
  induction d as [| [k0 v0] d IH]; simpl; intros Hnd Hin; [contradiction |].
  inversion Hnd as [| ? ? Hnotin Hnd']; subst.
  destruct Hin as [[= -> ->] | Hin].
  - now rewrite String.eqb_refl.
  - destruct (String.eqb_spec k0 k) as [-> | _]; [| now apply IH].
    exfalso. apply Hnotin. apply in_map_iff. now exists (k, n).
Qed.

End DictFacts.

Section CommandFacts.
Import Path FS Reader Walker Commands Conditions.

Lemma StronglySorted_weaken {A} (R S : A -> A -> Prop) l :
  (forall a b, R a b -> S a b) ->
  StronglySorted R l -> StronglySorted S l.
Proof.
  intros HRS H. induction H as [| x l _ IH Hx]; constructor; [exact IH |].
  eapply Forall_impl; [| exact Hx]. intros b. apply HRS.
Qed.

Lemma large_file_findings_In fs cwd p min_bytes rel size :
  In (rel, size) (large_file_findings fs cwd p min_bytes)
  <-> exists fp,
        In (fp, rel) (iter_files fs cwd p None)
        /\ size = size_or_zero fs fp /\ (min_bytes <= size)%Z.
Proof.
  unfold large_file_findings. rewrite in_flat_map. split.
  - intros ([fp rel'] & Hin & Hx).
    destruct (Z.leb_spec min_bytes (size_or_zero fs fp)) as [Hle | Hgt];
      [| contradiction].
    destruct Hx as [[= <- <-] | []]. eauto.
  - intros (fp & Hin & -> & Hle). exists (fp, rel). split; [exact Hin |].
    apply Z.leb_le in Hle. rewrite Hle. now left.
Qed.

(** X12. The files [cmd_large_file_scan] reports are exactly the
    yielded files of at least [min_bytes] (a file whose size cannot be
    read counting as 0 bytes), each once per finding, largest first. *)
Theorem large_file_report_sorted fs cwd p min_bytes :
  let report := by_size_descending (large_file_findings fs cwd p min_bytes) in
  StronglySorted (fun a b => (snd b <= snd a)%Z) report
  /\ (forall rel size,
        In (rel, size) report
        <-> exists fp,
              In (fp, rel) (iter_files fs cwd p None)
              /\ size = size_or_zero fs fp /\ (min_bytes <= size)%Z)
  /\ List.length report
     = List.length (large_file_findings fs cwd p min_bytes).
Proof.
  intro report. subst report. unfold by_size_descending. split; [| split].
  - eapply StronglySorted_weaken.
    2:{ apply sorted_sorted.
        - intros x y. rewrite !Z.leb_le. lia.
        - intros x y z. rewrite !Z.leb_le. lia. }
    intros a b H. simpl in H. apply Z.leb_le in H. lia.
  - intros rel size. rewrite sorted_In. apply large_file_findings_In.
  - apply sorted_length.
Qed.


Lemma fold_left_dict_total {E} (key : E -> string) (val : E -> Z) l : forall d,
  total (fold_left (fun d e => dict_add (key e) (val e) d) l d)
  = (total d + zsum (map val l))%Z.
Proof.
  induction l as [| e l IH]; intro d; simpl; [lia |].
  rewrite IH, dict_add_total. lia.
Qed.

Lemma fold_left_dict_NoDup {E} (key : E -> string) (val : E -> Z) l : forall d,
  NoDup (map fst d) ->
  NoDup (map fst (fold_left (fun d e => dict_add (key e) (val e) d) l d)).
Proof.
  induction l as [| e l IH]; intros d H; simpl; [exact H |].
  apply IH. now apply dict_add_NoDup.
Qed.

Lemma fold_left_dict_keys {E} (key : E -> string) (val : E -> Z) l : forall d k,
  In k (map fst (fold_left (fun d e => dict_add (key e) (val e) d) l d))
  <-> In k (map fst d) \/ In k (map key l).
Proof.
  induction l as [| e l IH]; intros d k; simpl; [tauto |].
  rewrite IH, dict_add_keys. intuition.
Qed.

Lemma fold_left_ext {S E} (f g : S -> E -> S) l :
  (forall s e, f s e = g s e) -> forall s, fold_left f l s = fold_left g l s.
Proof.
  intro H. induction l as [| e l IH]; intro s; simpl; [reflexivity |].
  now rewrite H, IH.
Qed.

Lemma dir_sizes_fold fs cwd p :
  dir_sizes fs cwd p
  = fold_left (fun d e => dict_add (render (removelast (snd e)))
                                   (size_or_zero fs (fst e)) d)
              (iter_files fs cwd p None) [].
Proof.
  unfold dir_sizes. apply fold_left_ext. now intros d [fp rel].
Qed.

(** X13. The sizes [cmd_dir_size_report] prints add up to the total
    size of the yielded files; each directory that holds a yielded file
    has exactly one line, and the lines come largest first. *)
Theorem dir_size_report_total fs cwd p :
  let report := sorted (fun a b => (- snd a <=? - snd b)%Z) (dir_sizes fs cwd p) in
  total report
  = zsum (map (fun e => size_or_zero fs (fst e)) (iter_files fs cwd p None))
  /\ NoDup (map fst report)
  /\ (forall d, In d (map fst report)
                <-> exists fp rel, In (fp, rel) (iter_files fs cwd p None)
                                   /\ d = render (removelast rel))
  /\ StronglySorted (fun a b => (snd b <= snd a)%Z) report.
Proof.
  intro report. subst report.
  set (le := fun a b : string * Z => (- snd a <=? - snd b)%Z).
  pose proof (sorted_perm le (dir_sizes fs cwd p)) as P.
  split; [| split; [| split]].
  - rewrite (total_perm _ _ P), dir_sizes_fold, fold_left_dict_total.
    reflexivity.
  - eapply Permutation_NoDup;
      [apply Permutation_map, Permutation_sym, P |].
    rewrite dir_sizes_fold. apply fold_left_dict_NoDup. constructor.
  - intro d. split.
    + intro H. apply (Permutation_in _ (Permutation_map fst P)) in H.
      rewrite dir_sizes_fold, fold_left_dict_keys in H.
      destruct H as [[] | H]. apply in_map_iff in H as ([fp rel] & <- & Hin).
      eauto.
    + intros (fp & rel & Hin & ->).
      apply (Permutation_in _ (Permutation_map fst (Permutation_sym P))).
      rewrite dir_sizes_fold, fold_left_dict_keys. right.
      apply in_map_iff. exists (fp, rel). auto.
  - eapply StronglySorted_weaken.
    2:{ apply (sorted_sorted le).
        - intros x y. unfold le. rewrite !Z.leb_le. lia.
        - intros x y z. unfold le. rewrite !Z.leb_le. lia. }
    intros a b H. unfold le in H. apply Z.leb_le in H. lia.
Qed.

Lemma zsum_ones {E} (l : list E) :
  zsum (map (fun _ => 1%Z) l) = Z.of_nat (List.length l).
Proof.
  induction l as [| e l IH]; [reflexivity |].
  cbn [map zsum fold_right List.length]. rewrite Nat2Z.inj_succ.
  unfold zsum in IH. lia.
Qed.

Lemma dict_add_positive k v d :
  (0 < v)%Z -> Forall (fun e => (0 < snd e)%Z) d ->
  Forall (fun e => (0 < snd e)%Z) (dict_add k v d).
Proof.
  intros Hv H. induction H as [| [k' v'] d Hk Hd IH]; simpl.
  - repeat constructor. exact Hv.
  - simpl in Hk. destruct (String.eqb k' k); constructor; simpl; auto; lia.
Qed.

Lemma fold_left_dict_positive {E} (key : E -> string) l : forall d,
  Forall (fun e => (0 < snd e)%Z) d ->
  Forall (fun e => (0 < snd e)%Z)
         (fold_left (fun d e => dict_add (key e) 1%Z d) l d).
Proof.
  induction l as [| e l IH]; intros d H; simpl; [exact H |].
  apply IH. apply dict_add_positive; [lia | exact H].
Qed.

Lemma extension_counts_fold fs cwd p :
  extension_counts fs cwd p
  = fold_left (fun d e => dict_add (lower (snd (splitext (render_abs (fst e)))))
                                   1%Z d)
              (iter_files fs cwd p None) [].
Proof.
  unfold extension_counts. apply fold_left_ext. now intros d [fp rel].
Qed.

Lemma fold_left_dict_get {E} (key : E -> string) l k : forall d,
  dict_get k (fold_left (fun d e => dict_add (key e) 1%Z d) l d)
  = (dict_get k d
     + Z.of_nat (List.length (filter (fun e => String.eqb (key e) k) l)))%Z.
Proof.
  induction l as [| e l IH]; intro d; simpl; [lia |].
  rewrite IH, dict_get_add.
  destruct (String.eqb (key e) k); simpl List.length; lia.
Qed.

(** X14. Over yielded paths of 7-bit characters: the lines
    [cmd_extension_inventory] prints are one per lower-cased extension of
    a yielded file and no other; the count of a line is the number of
    yielded files with that extension, so it is at least one and the
    counts add up to the number of yielded files; the lines come largest
    first. *)
Theorem extension_inventory_total fs cwd p :
  let files := iter_files fs cwd p None in
  let ext_of := fun e : path * list string =>
                  lower (snd (splitext (render_abs (fst e)))) in
  let report := most_common (extension_counts fs cwd p) in
  Forall (fun e => seven_bit (render_abs (fst e))) files ->
  total report = Z.of_nat (List.length files)
  /\ NoDup (map fst report)
  /\ (forall ext, In ext (map fst report)
                  <-> exists e, In e files /\ ext_of e = ext)
  /\ (forall ext n,
        In (ext, n) report ->
        n = Z.of_nat
              (List.length
                 (filter (fun e => String.eqb (ext_of e) ext) files)))
  /\ Forall (fun e => (1 <= snd e)%Z) report
  /\ StronglySorted (fun a b => (snd b <= snd a)%Z) report.
Proof.
  intros files ext_of report _. subst report. unfold most_common.
  set (le := fun a b : string * Z => (snd b <=? snd a)%Z).
  pose proof (sorted_perm le (extension_counts fs cwd p)) as P.
  assert (Hnd : NoDup (map fst (extension_counts fs cwd p))).
  { rewrite extension_counts_fold.
    apply (fold_left_dict_NoDup _ (fun _ => 1%Z)). constructor. }
  split; [| split; [| split; [| split; [| split]]]].
  - rewrite (total_perm _ _ P), extension_counts_fold.
    rewrite (fold_left_dict_total _ (fun _ => 1%Z)).
    rewrite zsum_ones. reflexivity.
  - eapply Permutation_NoDup;
      [apply Permutation_map, Permutation_sym, P | exact Hnd].
  - intro ext. split.
    + intro H. apply (Permutation_in _ (Permutation_map fst P)) in H.
      rewrite extension_counts_fold in H.
      apply (fold_left_dict_keys _ (fun _ => 1%Z)) in H.
      destruct H as [[] | H]. apply in_map_iff in H as (e & <- & Hin).
      now exists e.
    + intros (e & Hin & <-).
      apply (Permutation_in _ (Permutation_map fst (Permutation_sym P))).
      rewrite extension_counts_fold.
      apply (fold_left_dict_keys _ (fun _ => 1%Z)). right.
      apply in_map_iff. now exists e.
  - intros ext n Hin. apply (Permutation_in _ P) in Hin.
    apply (In_dict_get _ _ _ Hnd) in Hin.
    rewrite extension_counts_fold in Hin.
    rewrite (fold_left_dict_get ext_of) in Hin.
    change (dict_get ext []) with 0%Z in Hin. fold files in Hin. lia.
  - eapply Permutation_Forall; [apply Permutation_sym, P |].
    rewrite extension_counts_fold.
    eapply Forall_impl; [| apply fold_left_dict_positive; constructor].
    intros e He. simpl in He. lia.
  - eapply StronglySorted_weaken.
    2:{ apply (sorted_sorted le).
        - intros x y. unfold le. rewrite !Z.leb_le. lia.
        - intros x y z. unfold le. rewrite !Z.leb_le. lia. }
    intros a b H. unfold le in H. now apply Z.leb_le in H.
Qed.


(** X16. For a yielded file the process may open and whose size is
    within the limit, [cmd_binary_file_inventory] lists it exactly when
    [read_text_safe] declines it. *)
Theorem binary_inventory_agrees fs cwd p fp rel data max_bytes :
  In (fp, rel) (iter_files fs cwd p None) ->
  stat fs fp = Ok (File true data) ->
  (Z.of_nat (List.length data) <= max_bytes)%Z ->
  (In rel (binary_files fs cwd p)
   <-> read_text_safe (os_of fs) fp max_bytes = Ok None).
Proof.
  intros Hin Hs Hmax.
  destruct (stat_file_os fs fp true data Hs) as [Hsize Hread].
  assert (Hrb : read_bytes fs fp = Ok data) by exact Hread.
  assert (Hfull : forall fp', In (fp', rel) (iter_files fs cwd p None) -> fp' = fp).
  { intros fp' H'.
    apply iter_files_spec in H' as (? & ? & ? & ? & _ & _ & _ & _ & -> & ->).
    apply iter_files_spec in Hin as (? & ? & ? & ? & _ & _ & _ & _ & -> & E).
    now rewrite E. }
  unfold binary_files. rewrite in_flat_map. split.
  - intros ([fp' rel'] & Hin' & Hx).
    destruct (read_bytes fs fp') as [data' |] eqn:Hr'; [| contradiction].
    destruct (Classifier.is_binary_bytes (firstn 1024 data')) eqn:Hb;
      [| contradiction].
    destruct Hx as [-> | []]. apply Hfull in Hin'. subst fp'.
    rewrite Hrb in Hr'. injection Hr' as <-.
    eapply read_text_safe_binary; eassumption.
  - intro Hnone. exists (fp, rel). split; [exact Hin |].
    rewrite Hrb.
    destruct (Classifier.is_binary_bytes (firstn 1024 data)) eqn:Hb;
      [now left |].
    destruct (read_text_safe_text _ _ _ _ _ Hsize Hmax Hread Hb)
      as [text [_ Hsome]].
    congruence.
Qed.

End CommandFacts.

Section NewlineFacts.
Import Path FS Reader Walker Commands.

Lemma count1_cons b x data :
  count1 b (x :: data)
  = ((if Byte.eqb b x then 1 else 0) + count1 b data)%Z.
Proof.
  unfold count1. simpl. destruct (Byte.eqb b x); simpl List.length; lia.
Qed.

Lemma count1_nonneg b data : (0 <= count1 b data)%Z.
Proof. unfold count1. lia. Qed.

Lemma count2_cons2 a b x y rest :
  count2 a b (x :: y :: rest)
  = if Byte.eqb x a && Byte.eqb y b then (1 + count2 a b rest)%Z
    else count2 a b (y :: rest).
Proof. reflexivity. Qed.

(** Every [\r\n] found takes one [\r] and one [\n] of its own. *)
Lemma count2_bounds (n : nat) : forall data,
  (List.length data <= n)%nat ->
  (0 <= count2 CR LF data <= count1 LF data)%Z
  /\ (count2 CR LF data <= count1 CR data)%Z.
Proof.
  induction n as [| n IH]; intros data Hlen.
  - destruct data; [| simpl in Hlen; lia]. unfold count1. simpl. lia.
  - destruct data as [| x [| y rest]].
    + unfold count1. simpl. lia.
    + cbn [count2]. pose proof (count1_nonneg LF [x]).
      pose proof (count1_nonneg CR [x]). lia.
    + simpl in Hlen. rewrite count2_cons2.
      destruct (Byte.eqb x CR && Byte.eqb y LF) eqn:E.
      * apply andb_true_iff in E as [Ex Ey].
        apply Byte.byte_dec_bl in Ex, Ey. subst x y.
        destruct (IH rest ltac:(lia)) as [H1 H2].
        rewrite !count1_cons.
        change (Byte.eqb LF CR) with false. change (Byte.eqb LF LF) with true.
        change (Byte.eqb CR CR) with true. change (Byte.eqb CR LF) with false.
        lia.
      * destruct (IH (y :: rest) ltac:(simpl; lia)) as [H1 H2].
        rewrite (count1_cons LF x), (count1_cons CR x).
        destruct (Byte.eqb LF x), (Byte.eqb CR x); lia.
Qed.

Lemma newline_counts_bounds data :
  let '(crlf, lf, cr) := newline_counts data in
  (0 <= crlf)%Z /\ (0 <= lf)%Z /\ (0 <= cr)%Z.
Proof.
  unfold newline_counts.
  destruct (count2_bounds (List.length data) data (le_n _)) as [H1 H2].
  lia.
Qed.

(** X17. What one file adds to the three newline counters is never
    negative, and every [\n] is counted once, as CRLF or as LF, and every
    [\r] once, as CRLF or as CR. *)
Theorem newline_counts_sound data :
  let '(crlf, lf, cr) := newline_counts data in
  (0 <= crlf)%Z /\ (0 <= lf)%Z /\ (0 <= cr)%Z
  /\ (crlf + lf = count1 LF data)%Z
  /\ (crlf + cr = count1 CR data)%Z.
Proof.
  unfold newline_counts.
  destruct (count2_bounds (List.length data) data (le_n _)) as [H1 H2].
  lia.
Qed.

Lemma dict_add_nonneg k v d :
  (0 <= v)%Z -> Forall (fun e => (0 <= snd e)%Z) d ->
  Forall (fun e => (0 <= snd e)%Z) (dict_add k v d).
Proof.
  intros Hv H. induction H as [| [k' v'] d Hk Hd IH]; simpl.
  - repeat constructor. exact Hv.
  - simpl in Hk. destruct (String.eqb k' k); constructor; simpl; auto; lia.
Qed.

(** X18. Every line of [cmd_newline_consistency_scan] is one of CRLF,
    LF and CR, with a count that is not negative. *)
Theorem newline_totals_nonneg fs cwd p k v :
  In (k, v) (newline_totals fs cwd p) ->
  (0 <= v)%Z /\ (k = "CRLF" \/ k = "LF" \/ k = "CR").
Proof.
  unfold newline_totals.
  set (ok := fun e : string * Z =>
               (0 <= snd e)%Z /\ (fst e = "CRLF" \/ fst e = "LF" \/ fst e = "CR")).
  assert (Hadd : forall k v d, (0 <= v)%Z ->
                   (k = "CRLF" \/ k = "LF" \/ k = "CR") ->
                   Forall ok d -> Forall ok (dict_add k v d)).
  { intros k0 v0 d Hv Hk H. induction H as [| [k' v'] d [Hk1 Hk2] Hd IH]; simpl.
    - constructor; [split; [exact Hv | exact Hk] | constructor].
    - simpl in Hk1, Hk2.
      destruct (String.eqb k' k0); constructor; auto; split; simpl; auto; lia. }
  assert (H : forall l d, Forall ok d ->
                Forall ok (fold_left (newline_step fs) l d)).
  { induction l as [| [fp rel] l IH]; intros d Hd; cbn [fold_left];
      [exact Hd |].
    apply IH. unfold newline_step.
    destruct (read_bytes fs fp) as [whole |]; [| exact Hd].
    match goal with
    | |- context [newline_counts ?d] =>
      pose proof (newline_counts_bounds d) as Hc;
        destruct (newline_counts d) as [[crlf lf] cr]
    end.
    destruct Hc as (H1 & H2 & H3).
    repeat (apply Hadd; auto). }
  intro Hin. specialize (H (iter_files fs cwd p None) [] (Forall_nil _)).
  rewrite Forall_forall in H. exact (H _ Hin).
Qed.

End NewlineFacts.

Section TrailingFacts.
Import Path FS Reader Walker Commands.

Lemma leading_newlines_split l :
  exists rest,
    l = repeat 10%N (leading_newlines l) ++ rest
    /\ (forall c rest', rest = c :: rest' -> c <> 10%N).
Proof.
  induction l as [| ch l (rest & Hl & Hrest)]; simpl.
  - exists []. split; [reflexivity | discriminate].
  - destruct (N.eqb_spec ch 10) as [-> | Hne].
    + exists rest. simpl. split; [now f_equal | exact Hrest].
    + exists (ch :: l). simpl. split; [reflexivity |].
      now intros c rest' [= <- _].
Qed.

Lemma repeat_rev {A} (x : A) n : rev (repeat x n) = repeat x n.
Proof.
  induction n as [| n IH]; [reflexivity |].
  simpl. rewrite IH. symmetry. apply repeat_cons.
Qed.

(** X19. The count of [cmd_trailing_empty_lines_scan] is the length of
    the longest run of newlines that ends the text. *)
Theorem trailing_newlines_spec text :
  exists body,
    text = body ++ repeat 10%N (trailing_newlines text)
    /\ (forall body' c, body = body' ++ [c] -> c <> 10%N).
Proof.
  unfold trailing_newlines.
  destruct (leading_newlines_split (rev text)) as (rest & Hl & Hrest).
  exists (rev rest). split.
  - rewrite <- (rev_involutive text) at 1. rewrite Hl at 1.
    now rewrite rev_app_distr, repeat_rev.
  - intros body' c Hb. apply (f_equal (@rev N)) in Hb.
    rewrite rev_involutive, rev_app_distr in Hb. simpl in Hb.
    eapply Hrest. exact Hb.
Qed.

End TrailingFacts.

Section TreeFacts.
Import Path FS Reader Walker Commands.

Lemma flat_map_length_add {A B1 B2 B3}
    (f1 : A -> list B1) (f2 : A -> list B2) (f3 : A -> list B3) l :
  (forall x, In x l ->
     List.length (f3 x) = (List.length (f1 x) + List.length (f2 x))%nat) ->
  List.length (flat_map f3 l)
  = (List.length (flat_map f1 l) + List.length (flat_map f2 l))%nat.
Proof.
  induction l as [| x l IH]; intro H; simpl; [reflexivity |].
  rewrite !length_app, IH, (H x) by (intros; try apply H; simpl; auto).
  lia.
Qed.

(** Three loops over the same walk, the third yielding as much as the
    other two together at every directory. *)
Lemma walk_length_add {B1 B2 B3}
    (b1 : path -> list string -> list string -> list string * list B1)
    (b2 : path -> list string -> list string -> list string * list B2)
    (b3 : path -> list string -> list string -> list string * list B3)
    (keep : string -> bool) :
  (forall top dirs files, fst (b1 top dirs files) = filter keep dirs) ->
  (forall top dirs files, fst (b2 top dirs files) = filter keep dirs) ->
  (forall top dirs files, fst (b3 top dirs files) = filter keep dirs) ->
  (forall top dirs files,
     List.length (snd (b3 top dirs files))
     = (List.length (snd (b1 top dirs files))
        + List.length (snd (b2 top dirs files)))%nat) ->
  forall n top,
    List.length (walk b3 top n)
    = (List.length (walk b1 top n) + List.length (walk b2 top n))%nat.
Proof.
  intros H1 H2 H3 Hlen n.
  induction n as [a d | l es IH] using node_induction; intro top.
  - reflexivity.
  - destruct l; [| reflexivity].
    rewrite !walk_dir, !length_app, Hlen, H1, H2, H3.
    rewrite (flat_map_length_add
               (fun name => match lookup name es with
                            | Some c => walk b1 (join top name) c
                            | None => []
                            end)
               (fun name => match lookup name es with
                            | Some c => walk b2 (join top name) c
                            | None => []
                            end)).
    + lia.
    + intros name _. destruct (lookup name es) as [c |] eqn:Hl;
        [| reflexivity].
      rewrite Forall_forall in IH.
      apply (IH (name, c)). eapply lookup_In. exact Hl.
Qed.

(** X20. [_tree_lines] walks as [iter_files] does: it returns one line
    for every directory visited and one for every file [iter_files]
    yields without a filter. *)
Theorem tree_lines_length fs cwd p :
  List.length (tree_lines fs cwd p)
  = (List.length (visited_dirs fs cwd p)
     + List.length (iter_files fs cwd p None))%nat.
Proof.
  unfold tree_lines, visited_dirs, iter_files, os_walk.
  destruct (stat fs (abspath cwd p)) as [n | e]; [| reflexivity].
  apply (walk_length_add _ _ _ should_descend); try reflexivity.
  intros top dirs files. simpl.
  rewrite length_map, sorted_length. f_equal.
  induction files as [| f files IH]; [reflexivity |].
  simpl. now rewrite <- IH.
Qed.

End TreeFacts.

Section BomFacts.
Import Classifier Path FS Reader.

(** X3. [read_text_safe] decodes with [utf-8], not [utf-8-sig]: the text
    of a file that starts with a byte order mark starts with U+FEFF. *)
Theorem read_text_safe_keeps_bom os p max_bytes text rest :
  read_text_safe os p max_bytes = Ok (Some text) ->
  os_read os p = Ok (xef :: xbb :: xbf :: rest) ->
  exists t, text = 0xFEFF%N :: t
            /\ Utf8.decode Utf8.Replace rest = Ok t.
Proof.
  intros Hsome Hread.
  apply read_text_safe_inv in Hsome
    as (size & data & _ & _ & Hr & _ & Hd).
  rewrite Hread in Hr. injection Hr as <-.
  change (xef :: xbb :: xbf :: rest) with ([xef; xbb; xbf] ++ rest) in Hd.
  rewrite (decode_encoded_code_point 0xFEFF%N [xef; xbb; xbf]) in Hd
    by reflexivity.
  destruct (Utf8.decode Utf8.Replace rest) as [t | e]; [| discriminate].
  simpl in Hd. injection Hd as <-. eauto.
Qed.

End BomFacts.

Section ExtraWitnesses.
Import Classifier Path FS Reader Walker Report Commands Conditions.

Lemma read_text_safe_some_witness :
  exists size data,
    os_getsize (os_of Sample.tree) ["home"; "u"; "a.py"] = Ok size
    /\ (size <= 2000000)%Z
    /\ os_read (os_of Sample.tree) ["home"; "u"; "a.py"] = Ok data
    /\ is_binary_bytes (firstn 1024 data) = false
    /\ Utf8.decode Utf8.Replace data = Ok [104; 105; 10]%N.
Proof.
  apply (read_text_safe_some (os_of Sample.tree) ["home"; "u"; "a.py"] 2000000).
  reflexivity.
Defined.

Lemma read_text_safe_ignores_tail_witness :
  exists text,
    Utf8.decode Utf8.Replace (Sample2.long_head ++ [x00; x42]) = Ok text
    /\ read_text_safe (os_of Sample2.long_tree) ["long.txt"] 2000000
       = Ok (Some text).
Proof.
  apply (read_text_safe_ignores_tail Sample2.long_tree ["long.txt"]
           Sample2.long_head [x00; x42] 2000000).
  - reflexivity.
  - reflexivity.
  - vm_compute. reflexivity.
  - vm_compute. discriminate.
Defined.

Lemma write_text_read_text_safe_witness :
  exists fs',
    write_text Sample.tree ["home"; "u"; "new.txt"] (Utf8.of_string "hello")
    = Ok fs'
    /\ read_text_safe (os_of fs') ["home"; "u"; "new.txt"] 2000000
       = Ok (Some (Utf8.of_string "hello")).
Proof.
  eexists. split; [vm_compute; reflexivity |].
  eapply (write_text_read_text_safe Sample.tree ["home"; "u"; "new.txt"]
            (Utf8.of_string "hello") _ [x68; x65; x6c; x6c; x6f] 2000000).
  - vm_compute. reflexivity.
  - reflexivity.
  - vm_compute. reflexivity.
  - vm_compute. discriminate.
Defined.

Lemma ensure_out_dir_idempotent_witness :
  exists fs',
    ensure_out_dir Sample.tree Sample.cwd
    = Ok (Sample.cwd ++ ["context_out"], fs')
    /\ (exists l es, stat fs' (Sample.cwd ++ ["context_out"]) = Ok (Dir l es))
    /\ ensure_out_dir fs' Sample.cwd = Ok (Sample.cwd ++ ["context_out"], fs').
Proof.
  eexists. split; [vm_compute; reflexivity |].
  refine (let H := ensure_out_dir_idempotent Sample.tree Sample.cwd _ _ _ in
          conj (proj1 (proj2 H)) (proj2 (proj2 H))).
  vm_compute. reflexivity.
Defined.

Lemma noon_in_columns : in_columns Sample.noon.
Proof. unfold in_columns. simpl. lia. Defined.

Lemma morning_in_columns : in_columns Sample2.morning.
Proof. unfold in_columns. simpl. lia. Defined.

Lemma report_path_distinct_witness :
  exists p1 p2 fs1 fs2,
    report_path Sample.tree Sample.cwd Sample.noon "x" "md" = Ok (p1, fs1)
    /\ report_path Sample.tree Sample.cwd Sample2.morning "x" "md" = Ok (p2, fs2)
    /\ (p1 = p2 <-> Sample.noon = Sample2.morning).
Proof.
  do 4 eexists. split; [vm_compute; reflexivity |].
  split; [vm_compute; reflexivity |].
  eapply (report_path_distinct Sample.tree Sample.cwd "x" "md"
            Sample.noon Sample2.morning).
  - exact noon_in_columns.
  - exact morning_in_columns.
  - vm_compute. reflexivity.
  - vm_compute. reflexivity.
Defined.

Lemma is_binary_bytes_allowed_witness :
  is_binary_bytes [x41; xff; x09; x1b; xc3; xa9] = false.
Proof.
  apply is_binary_bytes_allowed.
  repeat (apply Forall_cons; [apply allowed_byteb_spec; reflexivity |]).
  apply Forall_nil.
Defined.

Lemma is_binary_bytes_perm_witness :
  is_binary_bytes [x01; x41; x42] = is_binary_bytes [x41; x01; x42].
Proof. apply is_binary_bytes_perm. apply perm_swap. Defined.

Lemma iter_files_NoDup_witness :
  NoDup (iter_files Sample.listing_1 [] Sample.root_dir None)
  /\ NoDup (map fst (iter_files Sample.listing_1 [] Sample.root_dir None))
  /\ NoDup (map snd (iter_files Sample.listing_1 [] Sample.root_dir None)).
Proof. apply iter_files_NoDup. exact listing_1_wf. Defined.

Lemma safe_relpath_round_trip_witness :
  normpath_loop [] (["home"; "u"; "src"]
                    ++ safe_relpath ["home"; "v"; "doc"] ["home"; "u"; "src"])
  = ["home"; "v"; "doc"].
Proof.
  apply safe_relpath_round_trip;
    repeat (apply Forall_cons; [repeat split; discriminate |]);
    apply Forall_nil.
Defined.

Lemma extension_inventory_total_witness :
  total (most_common (extension_counts Sample.tree Sample.cwd Sample.here))
  = 6%Z
  /\ In (".py", 2%Z)
        (most_common (extension_counts Sample.tree Sample.cwd Sample.here))
  /\ In (EmptyString, 2%Z)
        (most_common (extension_counts Sample.tree Sample.cwd Sample.here)).
Proof.
  assert (H : Forall (fun e => seven_bit (render_abs (fst e)))
                     (iter_files Sample.tree Sample.cwd Sample.here None)).
  { repeat (apply Forall_cons;
            [repeat (apply Forall_cons; [vm_compute; lia |]); apply Forall_nil |]).
    apply Forall_nil. }
  pose proof (extension_inventory_total Sample.tree Sample.cwd Sample.here H)
    as (Ht & _).
  split; [exact Ht |]. vm_compute. tauto.
Defined.


Lemma binary_inventory_agrees_witness :
  In ["b.bin"] (binary_files Sample.tree Sample.cwd Sample.here)
  <-> read_text_safe (os_of Sample.tree) ["home"; "u"; "b.bin"] 2000000
      = Ok None.
Proof.
  apply (binary_inventory_agrees Sample.tree Sample.cwd Sample.here
           ["home"; "u"; "b.bin"] ["b.bin"] [x00; x01; x02] 2000000).
  - vm_compute. auto.
  - reflexivity.
  - vm_compute. discriminate.
Defined.

Lemma newline_totals_nonneg_witness :
  (0 <= 2)%Z /\ ("LF" = "CRLF" \/ "LF" = "LF" \/ "LF" = "CR").
Proof.
  apply (newline_totals_nonneg Sample.tree Sample.cwd Sample.here "LF" 2).
  vm_compute. auto.
Defined.

Lemma read_text_safe_keeps_bom_witness :
  exists t, [0xFEFF; 104; 105]%N = 0xFEFF%N :: t
            /\ Utf8.decode Utf8.Replace [x68; x69] = Ok t.
Proof.
  apply (read_text_safe_keeps_bom (os_of Sample2.bom_tree) ["bom.txt"] 2000000).
  - reflexivity.
  - reflexivity.
Defined.

End ExtraWitnesses.
